(** * Dividend forecast engine: [DividendParser.forecast_dividends]

    A shallow embedding of the forecasting part of [src/dividend_parser.py]
    (lines 828-1409) and the properties its specification states about it.

    Modelling conventions.
    - A pandas DataFrame is a list of rows in index order; a row is a record
      whose optional cells ([record_date], [year], [quarter]) are [option]s,
      [None] being the Python [None] the parser stores (lines 587-588, 636,
      741, 749).  The tests the engine makes on a cell ([is not None],
      [isinstance(x, datetime)], [pd.notnull], truthiness) all read: the cell
      is not [None].
    - Dividend values are Python floats in the source.  They are modelled as
      exact rationals [Q]; [round(x, 2)] is rounding to hundredths, ties to
      even.  No statement below depends on binary rounding error.
    - [datetime.now()] is the parameter [now] of the section.
    - Python dictionaries that are iterated ([ticker_quarters],
      [annual_payment_dates]) are association lists in insertion order; the
      dictionary that is only looked up ([site_forecasts]) is a [gmap].
    - The iteration order of a Python [set] is unspecified; it is the
      parameter [set_iter] of the section.
    - Exceptions are values of [outcome]; the local variables the loops
      mutate ([forecast_data], [ticker_forecast_count]) are the state of the
      monad [M]. *)

From stdpp Require Import gmap.
From Stdlib Require Import ZArith QArith Qround String List Bool Lia.
From Stdlib Require Import Permutation Sorted.
From Stdlib Require Import Lqa.
Import ListNotations.
Open Scope Z_scope.

(** ** Exceptions *)

Inductive exn : Type :=
| ValueError
| OverflowError
| ZeroDivisionError
| IndexError.

Inductive outcome (A : Type) : Type :=
| Ret (a : A)
| Raise (e : exn).
Arguments Ret {A} a.
Arguments Raise {A} e.

Definition obind {A B} (o : outcome A) (k : A -> outcome B) : outcome B :=
  match o with
  | Ret a => k a
  | Raise e => Raise e
  end.

(** ** Calendar: the part of [datetime] the engine uses *)

Module Calendar.

Record datetime : Type := mk_datetime
  { dt_year : Z; dt_month : Z; dt_day : Z }.

Definition MINYEAR : Z := 1.
Definition MAXYEAR : Z := 9999.

(** [y % 4 == 0 and (y % 100 != 0 or y % 400 == 0)], as at lines 966, 1072,
    1143, 1212, 1283, 1347 and inside [datetime] itself. *)
Definition is_leap (y : Z) : bool :=
  (y mod 4 =? 0) && (negb (y mod 100 =? 0) || (y mod 400 =? 0)).

Definition in_list (x : Z) (l : list Z) : bool := existsb (Z.eqb x) l.

Definition days_in_month (y m : Z) : Z :=
  if m =? 2 then (if is_leap y then 29 else 28)
  else if in_list m [4; 6; 9; 11] then 30
  else 31.

Definition valid_date (y m d : Z) : bool :=
  (MINYEAR <=? y) && (y <=? MAXYEAR)
  && (1 <=? m) && (m <=? 12)
  && (1 <=? d) && (d <=? days_in_month y m).

Definition valid (dt : datetime) : bool :=
  valid_date (dt_year dt) (dt_month dt) (dt_day dt).

(** [datetime(y, m, d)]: raises [ValueError] outside the calendar. *)
Definition datetime_ (y m d : Z) : outcome datetime :=
  if valid_date y m d then Ret (mk_datetime y m d) else Raise ValueError.

(** [dt - timedelta(days=1)]: raises [OverflowError] before 1 Jan of year 1. *)
Definition minus_one_day (dt : datetime) : outcome datetime :=
  let '(mk_datetime y m d) := dt in
  if 1 <? d then Ret (mk_datetime y m (d - 1))
  else if 1 <? m then Ret (mk_datetime y (m - 1) (days_in_month y (m - 1)))
  else if MINYEAR <? y then Ret (mk_datetime (y - 1) 12 31)
  else Raise OverflowError.

(** The date block every strategy repeats (lines 961-977, 1064-1087,
    1137-1154, 1207-1223, 1278-1294, 1342-1358): try the literal date and,
    on [ValueError], clamp it.  An exception raised inside the handler is
    not caught here. *)
Definition make_forecast_date (y m d : Z) : outcome datetime :=
  match datetime_ y m d with
  | Ret dt => Ret dt
  | Raise ValueError =>
      if (m =? 2) && (28 <? d) then
        if is_leap y then datetime_ y 2 29 else datetime_ y 2 28
      else if (30 <? d) && in_list m [4; 6; 9; 11] then datetime_ y m 30
      else if 1 <? m then obind (datetime_ y m 1) minus_one_day
      else datetime_ (y - 1) 12 31
  | Raise e => Raise e
  end.

(** The clamping rule in the words of the specification: the result for a
    triple that is not a calendar date. *)
Definition last_day_of_previous_month (y m : Z) : datetime :=
  if m =? 1 then mk_datetime (y - 1) 12 31
  else mk_datetime y (m - 1) (days_in_month y (m - 1)).

Definition gregorian_leap (y : Z) : bool :=
  if y mod 4 =? 0
  then (if y mod 100 =? 0 then y mod 400 =? 0 else true)
  else false.

Definition clamp_spec (y m d : Z) : datetime :=
  if (m =? 2) && (28 <? d) then
    (if gregorian_leap y then mk_datetime y 2 29 else mk_datetime y 2 28)
  else if (30 <? d) && in_list m [4; 6; 9; 11] then mk_datetime y m 30
  else last_day_of_previous_month y m.

End Calendar.
Export Calendar.

(** ** Rows of the data frames *)

(** The [forecast_strategy] column.  The source stores these labels as text:
    - [Actual_data]      "0 - Фактические данные"   (line 846)
    - [Site_forecast]    "1 - Прогноз сайта"        (line 846)
    - [Quarterly_data]   "3.1 - Квартальные данные" (line 1103)
    - [Payment_dates]    "3.2 - Даты выплат"        (line 1171)
    - [Annual_data]      "3.3 - Годовые данные"     (line 1238)
    - [Single_annual]    "3.3 - Единый годовой"     (line 1309)
    - [Inactive_company] "3.4 - Неактивная компания" (line 992)
    - [Emergency]        "3.4 - Аварийная стратегия" (line 1373) *)
Inductive strategy_label : Type :=
| Actual_data
| Site_forecast
| Quarterly_data
| Payment_dates
| Annual_data
| Single_annual
| Inactive_company
| Emergency.

(** The [period] column: "Q{quarter} {year}", "Год {year}", or the text the
    parser scraped. *)
Inductive period_label : Type :=
| Period_quarter (q y : Z)
| Period_year (y : Z)
| Period_text (s : string).

(** One row.  The columns [month] and [record_date_str] are functions of
    [record_date] in both frames (lines 812-819, 984, 990) and
    [announcement_date] is the constant "no data" (lines 658, 778, 802, 991);
    they are not stored.  [forecast_strategy] is [None] while the column does
    not exist yet. *)
Record Row : Type := mk_row
  { ticker : string;
    name : string;
    record_date : option datetime;
    dividend_value : Q;
    period : period_label;
    forecast_type : Z;
    year : option Z;
    quarter : option Z;
    forecast_strategy : option strategy_label }.

Definition month (r : Row) : option Z := option_map dt_month (record_date r).

(** ** Python built-ins used by the engine *)

(** [range(a, b)] *)
Definition range (a b : Z) : list Z :=
  map (fun i => a + Z.of_nat i) (seq 0 (Z.to_nat (b - a))).

(** [enumerate(l, start)] *)
Fixpoint enumerate {A} (l : list A) (start : Z) : list (Z * A) :=
  match l with
  | [] => []
  | x :: l' => (start, x) :: enumerate l' (start + 1)
  end.

(** [sum(l)]: starts from 0 and adds from the left. *)
Definition qsum (l : list Q) : Q := fold_left Qplus l 0%Q.
Definition zsum (l : list Z) : Z := fold_left Z.add l 0.

Definition len {A} (l : list A) : Z := Z.of_nat (length l).

(** [sum(l) / len(l)] on floats: [ZeroDivisionError] on an empty list. *)
Definition mean (l : list Q) : outcome Q :=
  if len l =? 0 then Raise ZeroDivisionError
  else Ret (qsum l / inject_Z (len l))%Q.

(** [int(sum(l) // len(l))] on integers. *)
Definition int_mean (l : list Z) : outcome Z :=
  if len l =? 0 then Raise ZeroDivisionError
  else Ret (zsum l / len l).

(** Rounding to the nearest integer, ties to the even neighbour. *)
Definition round_half_even (x : Q) : Z :=
  let f := Qfloor x in
  match (x - inject_Z f ?= 1 # 2)%Q with
  | Lt => f
  | Gt => f + 1
  | Eq => if Z.even f then f else f + 1
  end.

(** [round(x, 2)] *)
Definition round2 (x : Q) : Q := (round_half_even (x * 100) # 100)%Q.

(** [l.count(x)] *)
Definition count (l : list Z) (x : Z) : Z :=
  len (filter (Z.eqb x) l).

(** [max(it, key=key)]: the first element of [it] whose key is maximal;
    [ValueError] on an empty iterable. *)
Fixpoint max_from (key : Z -> Z) (best : Z) (it : list Z) : Z :=
  match it with
  | [] => best
  | x :: it' =>
      if key best <? key x then max_from key x it' else max_from key best it'
  end.

Definition py_max (key : Z -> Z) (it : list Z) : outcome Z :=
  match it with
  | [] => Raise ValueError
  | x :: it' => Ret (max_from key x it')
  end.

(** A dictionary of lists in insertion order, and
    [if k not in d: d[k] = []] followed by [d[k].append(v)]. *)
Fixpoint dict_append {K V} (eqb : K -> K -> bool) (k : K) (v : V)
    (d : list (K * list V)) : list (K * list V) :=
  match d with
  | [] => [(k, [v])]
  | (k', vs) :: d' =>
      if eqb k k' then (k', vs ++ [v]) :: d'
      else (k', vs) :: dict_append eqb k v d'
  end.

Definition md_eqb (a b : Z * Z) : bool :=
  (fst a =? fst b) && (snd a =? snd b).

Definition Qgtb (a b : Q) : bool := negb (Qle_bool a b).

(** ** The local variables of [forecast_dividends] and the monad over them *)

Record locals : Type := mk_locals
  { forecast_data : list Row;
    ticker_forecast_count : Z }.

Definition M (A : Type) : Type := locals -> outcome A * locals.

Definition ret {A} (a : A) : M A := fun s => (Ret a, s).

Definition bind {A B} (m : M A) (k : A -> M B) : M B :=
  fun s =>
    match m s with
    | (Ret a, s') => k a s'
    | (Raise e, s') => (Raise e, s')
    end.

Definition lift {A} (o : outcome A) : M A := fun s => (o, s).

(** [try: m  except Exception as e: handler e]; what [m] did to the local
    variables before raising stays done. *)
Definition try_except {A} (m : M A) (handler : exn -> M A) : M A :=
  fun s =>
    match m s with
    | (Ret a, s') => (Ret a, s')
    | (Raise e, s') => handler e s'
    end.

Declare Scope engine_scope.
Delimit Scope engine_scope with engine.
Notation "x <- c ;; k" := (bind c (fun x => k))
  (at level 100, c at next level, right associativity) : engine_scope.
Notation "c ;; k" := (bind c (fun _ => k))
  (at level 100, right associativity) : engine_scope.
Open Scope engine_scope.

Definition pass : M unit := ret tt.

(** [for x in l: body x] *)
Fixpoint for_each {B} (l : list B) (body : B -> M unit) : M unit :=
  match l with
  | [] => pass
  | x :: l' => body x ;; for_each l' body
  end.

(** [forecast_data.append(r)] *)
Definition append_forecast (r : Row) : M unit :=
  fun s => (Ret tt, mk_locals (forecast_data s ++ [r]) (ticker_forecast_count s)).

(** [ticker_forecast_count += 1] *)
Definition count_forecast : M unit :=
  fun s => (Ret tt, mk_locals (forecast_data s) (ticker_forecast_count s + 1)).

(** [ticker_forecast_count = 0] *)
Definition reset_count : M unit :=
  fun s => (Ret tt, mk_locals (forecast_data s) 0).

Definition get_count : M Z :=
  fun s => (Ret (ticker_forecast_count s), s).

(** ** The per-security history (lines 865-935) *)

Record history : Type := mk_history
  { ticker_quarters : list (Z * list Row);
    site_forecasts : gmap (Z * Z) Row;
    all_payments : list Row;
    recent_payments_sum : Q;
    annual_payment_dates : list ((Z * Z) * list Row) }.

Definition empty_history : history := mk_history [] ∅ [] 0%Q [].

(** The entries the source stores in these collections are dictionaries
    holding some cells of the row; the row itself stands for them.  The key of
    [site_forecasts] is the text "{year}-{quarter}" in the source, which
    determines the pair of integers. *)
Definition analyse_row (recent_activity_year : Z) (h : history) (row : Row)
    : history :=
  match forecast_type row =? 0, year row with
  | true, Some y =>
      let h1 :=
        if Qgtb (dividend_value row) 0 then
          mk_history
            (ticker_quarters h)
            (site_forecasts h)
            (all_payments h ++ [row])
            (if y >=? recent_activity_year
             then (recent_payments_sum h + dividend_value row)%Q
             else recent_payments_sum h)
            (match record_date row with
             | Some d =>
                 dict_append md_eqb (dt_month d, dt_day d) row
                   (annual_payment_dates h)
             | None => annual_payment_dates h
             end)
        else h in
      match quarter row with
      | Some q =>
          mk_history
            (dict_append Z.eqb q row (ticker_quarters h1))
            (site_forecasts h1) (all_payments h1)
            (recent_payments_sum h1) (annual_payment_dates h1)
      | None => h1
      end
  | _, _ =>
      if forecast_type row =? 1 then
        match year row, quarter row with
        | Some y, Some q =>
            mk_history
              (ticker_quarters h)
              (<[ (y, q) := row ]> (site_forecasts h))
              (all_payments h) (recent_payments_sum h)
              (annual_payment_dates h)
        | _, _ => h
        end
      else h
  end.

(** [for _, row in group.iterrows(): ...] *)
Definition analyse (recent_activity_year : Z) (group : list Row) : history :=
  fold_left (analyse_row recent_activity_year) group empty_history.

(** ** The strategies *)

Definition quarterly_dates : list (Z * Z) := [(3, 15); (6, 15); (9, 15); (12, 15)].

(** [group['name'].iloc[0]] *)
Definition group_name (group : list Row) : outcome string :=
  match group with
  | r :: _ => Ret (name r)
  | [] => Raise IndexError
  end.

(** The dictionary appended to [forecast_data]; [forecast_type] is 2. *)
Definition forecast_row (tk nm : string) (d : datetime) (v : Q)
    (p : period_label) (y : Z) (q : option Z) (s : strategy_label) : Row :=
  mk_row tk nm (Some d) v p 2 (Some y) q (Some s).

(** [if site_forecast and site_forecast['record_date']] (line 1059): the
    site's date and value when there is a site forecast with a date. *)
Definition site_override (site_forecast : option Row) : option (datetime * Q) :=
  match site_forecast with
  | Some sf =>
      match record_date sf with
      | Some d => Some (d, dividend_value sf)
      | None => None
      end
  | None => None
  end.

Section Engine.

(** [datetime.now()] and the iteration order of [set(l)]. *)
Variable now : datetime.
Variable set_iter : list Z -> list Z.

(** The two nested loops of the fixed-date strategies (lines 953-998,
    1199-1244, 1334-1379): a row on the 15th of the last month of every
    quarter of every future year. *)
Definition quarter_grid (current_year years : Z) (tk : string)
    (group : list Row) (quarterly_dividend : Q) (label : strategy_label)
    : M unit :=
  for_each (enumerate quarterly_dates 1) (fun '(quarter, (month, day)) =>
    for_each (range (current_year + 1) (current_year + years + 1))
      (fun future_year =>
        try_except
          (forecast_date <- lift (make_forecast_date future_year month day) ;;
           nm <- lift (group_name group) ;;
           append_forecast
             (forecast_row tk nm forecast_date quarterly_dividend
                (Period_quarter quarter future_year) future_year
                (Some quarter) label) ;;
           count_forecast)
          (fun _ => pass))).

(** Lines 941-1001. *)
Definition inactive_company (current_year years : Z) (tk : string)
    (group : list Row) : M unit :=
  try_except
    (quarter_grid current_year years tk group 0%Q Inactive_company)
    (fun _ => pass).

(** [max(set(l), key=l.count)] *)
Definition most_common (l : list Z) : outcome Z :=
  py_max (count l) (set_iter l).

(** Lines 1024-1042. *)
Definition typical_month (history : list Row) : outcome Z :=
  let months := omap month history in
  match months with
  | [] => Ret (dt_month now)
  | _ => most_common months
  end.

Definition typical_day (most_common_month : Z) (history : list Row)
    : outcome Z :=
  let days :=
    omap (fun item =>
            match record_date item with
            | Some d =>
                if dt_month d =? most_common_month then Some (dt_day d)
                else None
            | None => None
            end) history in
  match days with
  | [] => Ret 15
  | _ => int_mean days
  end.

(** Strategy 3.1, lines 1017-1109. *)
Definition quarterly_data (current_year years : Z) (tk : string)
    (group : list Row) (h : history) : M unit :=
  for_each (ticker_quarters h) (fun '(quarter, history) =>
    match history with
    | [] => pass
    | _ =>
        avg_dividend <- lift (mean (map dividend_value history)) ;;
        most_common_month <- lift (typical_month history) ;;
        most_common_day <- lift (typical_day most_common_month history) ;;
        for_each (range (current_year + 1) (current_year + years + 1))
          (fun future_year =>
            try_except
              (dv <- match site_override
                             (site_forecasts h !! (future_year, quarter)) with
                     | Some dv => ret dv
                     | None =>
                         forecast_date <-
                           lift (make_forecast_date future_year
                                   most_common_month most_common_day) ;;
                         ret (forecast_date, round2 avg_dividend)
                     end ;;
               nm <- lift (group_name group) ;;
               append_forecast
                 (forecast_row tk nm (fst dv) (snd dv)
                    (Period_quarter quarter future_year) future_year
                    (Some quarter) Quarterly_data) ;;
               count_forecast)
              (fun _ => pass))
    end).

(** Strategy 3.2, lines 1116-1180. *)
Definition payment_dates (current_year years : Z) (tk : string)
    (group : list Row) (h : history) : M unit :=
  for_each (annual_payment_dates h) (fun '((month, day), payments) =>
    try_except
      (avg_dividend <- lift (mean (map dividend_value payments)) ;;
       let quarters := omap quarter payments in
       quarter <- lift (match quarters with
                        | [] => Ret ((month - 1) / 3 + 1)
                        | _ => most_common quarters
                        end) ;;
       for_each (range (current_year + 1) (current_year + years + 1))
         (fun future_year =>
           try_except
             (forecast_date <-
                lift (make_forecast_date future_year month day) ;;
              nm <- lift (group_name group) ;;
              append_forecast
                (forecast_row tk nm forecast_date (round2 avg_dividend)
                   (Period_quarter quarter future_year) future_year
                   (Some quarter) Payment_dates) ;;
              count_forecast)
             (fun _ => pass)))
      (fun _ => pass)).

(** The handler of strategy 3.3, lines 1250-1318.  It reads [avg_dividend],
    which the guarded block binds first; if that binding is what failed, the
    read fails again inside this [try]. *)
Definition single_annual (current_year years : Z) (tk : string)
    (group : list Row) (h : history) : M unit :=
  try_except
    (let months := omap month (all_payments h) in
     most_common_month <- lift (match months with
                                | [] => Ret 6
                                | _ => most_common months
                                end) ;;
     let days :=
       omap (fun item => option_map dt_day (record_date item))
         (all_payments h) in
     most_common_day <- lift (match days with
                              | [] => Ret 15
                              | _ => int_mean days
                              end) ;;
     yearly_dividend <- lift (mean (map dividend_value (all_payments h))) ;;
     for_each (range (current_year + 1) (current_year + years + 1))
       (fun future_year =>
         try_except
           (forecast_date <-
              lift (make_forecast_date future_year
                      most_common_month most_common_day) ;;
            nm <- lift (group_name group) ;;
            append_forecast
              (forecast_row tk nm forecast_date (round2 yearly_dividend)
                 (Period_year future_year) future_year None Single_annual) ;;
            count_forecast)
           (fun _ => pass)))
    (fun _ => pass).

(** Strategy 3.3, lines 1184-1318. *)
Definition annual_data (current_year years : Z) (tk : string)
    (group : list Row) (h : history) : M unit :=
  try_except
    (avg_dividend <- lift (mean (map dividend_value (all_payments h))) ;;
     quarter_grid current_year years tk group
       (round2 (avg_dividend / 4)) Annual_data)
    (fun _ => single_annual current_year years tk group h).

(** Strategy 3.4, lines 1321-1382. *)
Definition emergency (current_year years : Z) (tk : string)
    (group : list Row) : M unit :=
  try_except
    (quarter_grid current_year years tk group 0%Q Emergency)
    (fun _ => pass).

(** Lines 1005-1013. *)
Definition has_quarterly_data (h : history) : bool :=
  let found :=
    existsb (fun '(_, history) => len history >? 1) (ticker_quarters h) in
  if len (all_payments h) <=? 1 then false else found.

Definition is_empty {A} (l : list A) : bool :=
  match l with [] => true | _ => false end.

(** The body of [for ticker, group in df.groupby('ticker')], lines 863-1384. *)
Definition forecast_ticker (years history_years : Z) (tk : string)
    (group : list Row) : M unit :=
  let current_year := dt_year now in
  let recent_activity_year := current_year - history_years in
  let h := analyse recent_activity_year group in
  reset_count ;;
  if Qeq_bool (recent_payments_sum h) 0 then
    inactive_company current_year years tk group
  else
    (if has_quarterly_data h
     then quarterly_data current_year years tk group h
     else pass) ;;
    n <- get_count ;;
    (if (n =? 0) && negb (is_empty (annual_payment_dates h))
     then payment_dates current_year years tk group h
     else pass) ;;
    n <- get_count ;;
    (if (n =? 0) && (len (all_payments h) >? 0)
     then annual_data current_year years tk group h
     else pass) ;;
    n <- get_count ;;
    (if n =? 0
     then emergency current_year years tk group
     else pass).

End Engine.

(** ** pandas operations *)

(** [df.groupby('ticker')]: the groups in ascending order of the key, each
    with its rows in frame order. *)
Fixpoint insert_key (k : string) (keys : list string) : list string :=
  match keys with
  | [] => [k]
  | k' :: keys' =>
      match String.compare k k' with
      | Eq => keys
      | Lt => k :: keys
      | Gt => k' :: insert_key k keys'
      end
  end.

Definition group_keys (df : list Row) : list string :=
  fold_right (fun r keys => insert_key (ticker r) keys) [] df.

Definition groupby_ticker (df : list Row) : list (string * list Row) :=
  map (fun k => (k, filter (fun r => String.eqb (ticker r) k) df))
    (group_keys df).

(** [df.sort_values(['ticker', 'record_date'])]: pandas sorts on several
    columns with a stable lexicographic sort and places missing values last
    ([na_position='last']). *)
Definition date_compare (a b : datetime) : comparison :=
  match dt_year a ?= dt_year b with
  | Eq =>
      match dt_month a ?= dt_month b with
      | Eq => dt_day a ?= dt_day b
      | c => c
      end
  | c => c
  end.

Definition date_cell_leb (a b : option datetime) : bool :=
  match a, b with
  | Some x, Some y =>
      match date_compare x y with Gt => false | _ => true end
  | Some _, None => true
  | None, Some _ => false
  | None, None => true
  end.

Definition row_leb (a b : Row) : bool :=
  match String.compare (ticker a) (ticker b) with
  | Lt => true
  | Eq => date_cell_leb (record_date a) (record_date b)
  | Gt => false
  end.

Fixpoint insert_row (r : Row) (l : list Row) : list Row :=
  match l with
  | [] => [r]
  | x :: l' => if row_leb r x then r :: l else x :: insert_row r l'
  end.

Definition sort_values (df : list Row) : list Row :=
  fold_right insert_row [] df.

(** ** The parser object and the frames it refers to *)

(** Frames live in a store and are named by references, so that copying a
    frame and writing to a frame are different things. *)
Record World : Type := mk_world
  { frames : gmap nat (list Row);
    self_clean_df : nat;
    self_result_df : option nat }.

Definition frame (w : World) (ref : nat) : list Row :=
  default [] (frames w !! ref).

(** A frame built by pandas ([copy], [pd.DataFrame], [pd.concat],
    [sort_values]) is a new object. *)
Definition new_frame (rows : list Row) (w : World) : nat * World :=
  let ref := fresh (dom (frames w)) in
  (ref, mk_world (<[ ref := rows ]> (frames w))
          (self_clean_df w) (self_result_df w)).

(** [df[col] = ...] writes to the frame [df] refers to. *)
Definition write_frame (ref : nat) (rows : list Row) (w : World) : World :=
  mk_world (<[ ref := rows ]> (frames w)) (self_clean_df w) (self_result_df w).

(** [self.result_df = ref] *)
Definition set_result_df (ref : nat) (w : World) : World :=
  mk_world (frames w) (self_clean_df w) (Some ref).

(** Line 845: the [forecast_strategy] of a historical row. *)
Definition with_history_label (r : Row) : Row :=
  mk_row (ticker r) (name r) (record_date r) (dividend_value r) (period r)
    (forecast_type r) (year r) (quarter r)
    (Some (if forecast_type r =? 0 then Actual_data else Site_forecast)).

Section Forecast.

Variable now : datetime.
Variable set_iter : list Z -> list Z.

(** Lines 862-1384: every group appends to the one [forecast_data]. *)
Definition forecast_groups (years history_years : Z) (df : list Row)
    : M unit :=
  for_each (groupby_ticker df) (fun '(tk, group) =>
    forecast_ticker now set_iter years history_years tk group).

(** [DividendParser.forecast_dividends], lines 828-1409.  The two frames
    have the same columns, so [common_cols] selects all of them. *)
Definition forecast_dividends (years history_years : Z) (w : World)
    : outcome (option nat) * World :=
  if is_empty (frame w (self_clean_df w)) then (Ret None, w)
  else
    let '(df, w) := new_frame (frame w (self_clean_df w)) w in
    let w := write_frame df (map with_history_label (frame w df)) w in
    match forecast_groups years history_years (frame w df) (mk_locals [] 0) with
    | (Raise e, _) => (Raise e, w)
    | (Ret _, s) =>
        if negb (is_empty (forecast_data s)) then
          let '(forecast_df, w) := new_frame (forecast_data s) w in
          let '(result_df, w) :=
            new_frame (frame w df ++ frame w forecast_df) w in
          let '(result_df, w) :=
            new_frame (sort_values (frame w result_df)) w in
          let w := set_result_df result_df w in
          (Ret (self_result_df w), w)
        else
          let '(result_df, w) := new_frame (frame w df) w in
          let w := set_result_df result_df w in
          (Ret (self_result_df w), w)
    end.

End Forecast.

(** ** What the loops append, as lists *)

(** The local variables after [rows] were appended and counted. *)
Definition push (s : locals) (rows : list Row) : locals :=
  mk_locals (forecast_data s ++ rows) (ticker_forecast_count s + len rows).

Definition future_years (current_year years : Z) : list Z :=
  range (current_year + 1) (current_year + years + 1).

Definition grid_point (tk : string) (group : list Row) (v : Q)
    (label : strategy_label) (quarter month day future_year : Z) : list Row :=
  match make_forecast_date future_year month day, group_name group with
  | Ret d, Ret nm =>
      [forecast_row tk nm d v (Period_quarter quarter future_year)
         future_year (Some quarter) label]
  | _, _ => []
  end.

Definition grid_rows (current_year years : Z) (tk : string) (group : list Row)
    (v : Q) (label : strategy_label) : list Row :=
  flat_map (fun '(quarter, (month, day)) =>
              flat_map (grid_point tk group v label quarter month day)
                (future_years current_year years))
    (enumerate quarterly_dates 1).

Definition quarterly_point (tk : string) (group : list Row) (h : history)
    (quarter : Z) (avg : Q) (m d future_year : Z) : list Row :=
  match
    match site_override (site_forecasts h !! (future_year, quarter)) with
    | Some dv => Ret dv
    | None =>
        obind (make_forecast_date future_year m d)
          (fun fd => Ret (fd, round2 avg))
    end, group_name group
  with
  | Ret dv, Ret nm =>
      [forecast_row tk nm (fst dv) (snd dv)
         (Period_quarter quarter future_year) future_year
         (Some quarter) Quarterly_data]
  | _, _ => []
  end.

Definition payment_point (tk : string) (group : list Row) (quarter : Z)
    (avg : Q) (month day future_year : Z) : list Row :=
  match make_forecast_date future_year month day, group_name group with
  | Ret d, Ret nm =>
      [forecast_row tk nm d (round2 avg) (Period_quarter quarter future_year)
         future_year (Some quarter) Payment_dates]
  | _, _ => []
  end.

Section Rows.

Variable now : datetime.
Variable set_iter : list Z -> list Z.

Definition quarterly_item_rows (current_year years : Z) (tk : string)
    (group : list Row) (h : history) (item : Z * list Row) : list Row :=
  let '(quarter, history) := item in
  match history with
  | [] => []
  | _ =>
      match mean (map dividend_value history),
            typical_month now set_iter history with
      | Ret avg, Ret m =>
          match typical_day m history with
          | Ret d =>
              flat_map (quarterly_point tk group h quarter avg m d)
                (future_years current_year years)
          | Raise _ => []
          end
      | _, _ => []
      end
  end.

Definition quarterly_rows (current_year years : Z) (tk : string)
    (group : list Row) (h : history) : list Row :=
  flat_map (quarterly_item_rows current_year years tk group h)
    (ticker_quarters h).

(** The quarter strategy 3.2 assigns to an anniversary group. *)
Definition group_quarter (month : Z) (payments : list Row) : outcome Z :=
  match omap quarter payments with
  | [] => Ret ((month - 1) / 3 + 1)
  | q :: qs => most_common set_iter (q :: qs)
  end.

Definition payment_item_rows (current_year years : Z) (tk : string)
    (group : list Row) (item : (Z * Z) * list Row) : list Row :=
  let '((month, day), payments) := item in
  match mean (map dividend_value payments), group_quarter month payments with
  | Ret avg, Ret quarter =>
      flat_map (payment_point tk group quarter avg month day)
        (future_years current_year years)
  | _, _ => []
  end.

Definition payment_rows (current_year years : Z) (tk : string)
    (group : list Row) (h : history) : list Row :=
  flat_map (payment_item_rows current_year years tk group)
    (annual_payment_dates h).

Definition annual_rows (current_year years : Z) (tk : string)
    (group : list Row) (h : history) : list Row :=
  match mean (map dividend_value (all_payments h)) with
  | Ret avg =>
      grid_rows current_year years tk group (round2 (avg / 4)) Annual_data
  | Raise _ => []
  end.

(** The rows of the first strategy of the chain that appends any. *)
Definition chain_rows (current_year years : Z) (tk : string)
    (group : list Row) (h : history) : list Row :=
  let r1 :=
    if has_quarterly_data h
    then quarterly_rows current_year years tk group h else [] in
  let r2 :=
    if is_empty r1 && negb (is_empty (annual_payment_dates h))
    then payment_rows current_year years tk group h else r1 in
  let r3 :=
    if is_empty r2 && (len (all_payments h) >? 0)
    then annual_rows current_year years tk group h else r2 in
  if is_empty r3
  then grid_rows current_year years tk group 0%Q Emergency else r3.

Definition ticker_rows (years history_years : Z) (tk : string)
    (group : list Row) : list Row :=
  let current_year := dt_year now in
  let h := analyse (current_year - history_years) group in
  if Qeq_bool (recent_payments_sum h) 0
  then grid_rows current_year years tk group 0%Q Inactive_company
  else chain_rows current_year years tk group h.

(** The rows the engine emits for one security, and for a frame. *)
Definition emitted (years history_years : Z) (tk : string)
    (group : list Row) : list Row :=
  forecast_data
    (snd (forecast_ticker now set_iter years history_years tk group
            (mk_locals [] 0))).

Definition emitted_all (years history_years : Z) (df : list Row) : list Row :=
  forecast_data
    (snd (forecast_groups now set_iter years history_years df
            (mk_locals [] 0))).

End Rows.

(** ** Vocabulary of the statements *)

(** A dictionary of lists filled in one pass over [l]. *)
Definition dict_step {K V} (eqb : K -> K -> bool) (key : V -> option K)
    (d : list (K * list V)) (v : V) : list (K * list V) :=
  match key v with
  | Some k => dict_append eqb k v d
  | None => d
  end.

Definition dict_of {K V} (eqb : K -> K -> bool) (key : V -> option K)
    (l : list V) : list (K * list V) :=
  fold_left (dict_step eqb key) l [].

Definition key_is {K V} (eqb : K -> K -> bool) (key : V -> option K)
    (k : K) (v : V) : bool :=
  match key v with
  | Some k' => eqb k k'
  | None => false
  end.

Definition has_year (r : Row) : bool :=
  match year r with Some _ => true | None => false end.

(** An ACTUAL row: provenance code 0 and a year. *)
Definition is_actual (r : Row) : bool := (forecast_type r =? 0) && has_year r.

(** A payment: an ACTUAL row with a positive amount. *)
Definition is_payment (r : Row) : bool :=
  is_actual r && Qgtb (dividend_value r) 0.

(** The key under which a row enters [ticker_quarters]. *)
Definition quarter_key (r : Row) : option Z :=
  if is_actual r then quarter r else None.

(** The key under which a row enters [annual_payment_dates]. *)
Definition date_key (r : Row) : option (Z * Z) :=
  if is_payment r
  then option_map (fun d => (dt_month d, dt_day d)) (record_date r)
  else None.

(** The key under which a row enters [site_forecasts]. *)
Definition site_key (r : Row) : option (Z * Z) :=
  if is_actual r then None
  else if forecast_type r =? 1 then
    match year r, quarter r with
    | Some y, Some q => Some (y, q)
    | _, _ => None
    end
  else None.

Definition key_eqb (a b : option (Z * Z)) : bool :=
  match a, b with
  | Some x, Some y => md_eqb x y
  | _, _ => false
  end.

(** The SITE_FORECAST row keyed (year, quarter): the last one in frame order. *)
Definition site_record (group : list Row) (y q : Z) : option Row :=
  find (fun r => key_eqb (site_key r) (Some (y, q))) (rev group).

(** The activity sum in the words of the specification: the amounts of the
    ACTUAL rows whose year is at least [current_year - window]. *)
Definition in_window (current_year window : Z) (r : Row) : bool :=
  match year r with
  | Some y => (forecast_type r =? 0) && (y >=? current_year - window)
  | None => false
  end.

Definition recent_actual_sum (current_year window : Z) (group : list Row) : Q :=
  qsum (map dividend_value (filter (in_window current_year window) group)).

(** The fixed anniversary of a quarter: Mar 15, Jun 15, Sep 15, Dec 15. *)
Definition anniversary (y q : Z) : datetime := mk_datetime y (3 * q) 15.

Definition fixed_grid (tk nm : string) (current_year years : Z) (v : Q)
    (label : strategy_label) : list Row :=
  flat_map (fun q =>
              map (fun y =>
                     forecast_row tk nm (anniversary y q) v
                       (Period_quarter q y) y (Some q) label)
                (future_years current_year years))
    [1; 2; 3; 4].


Definition opt_eqb (a b : option Z) : bool :=
  match a, b with
  | Some x, Some y => x =? y
  | None, None => true
  | _, _ => false
  end.

Definition records_for (q : option Z) (y : Z) (rows : list Row) : list Row :=
  filter (fun r => opt_eqb (quarter r) q && opt_eqb (year r) (Some y)) rows.

(** Every record date of the frame is a calendar date. *)
Definition dates_valid (rows : list Row) : Prop :=
  forall r d, In r rows -> record_date r = Some d -> valid d = true.

(** The rows the activity sum of the source adds up (lines 885, 894). *)
Definition counts_recent (recent_activity_year : Z) (r : Row) : bool :=
  is_payment r
  && match year r with
     | Some y => y >=? recent_activity_year
     | None => false
     end.

(** The test of line 941, negated. *)
Definition passes_gate (current_year window : Z) (group : list Row) : bool :=
  negb (Qeq_bool
          (recent_payments_sum (analyse (current_year - window) group)) 0).

(** The value of an outcome that is known not to be an exception. *)
Definition value_or {A} (a : A) (o : outcome A) : A :=
  match o with
  | Ret x => x
  | Raise _ => a
  end.

Section Points.

Variable now : datetime.
Variable set_iter : list Z -> list Z.

(** The average, typical month and typical day strategy 3.1 derives from the
    history of one quarter. *)
Definition quarter_average (history : list Row) : Q :=
  value_or 0%Q (mean (map dividend_value history)).

Definition quarter_month (history : list Row) : Z :=
  value_or 0 (typical_month now set_iter history).

Definition quarter_day (history : list Row) : Z :=
  value_or 0 (typical_day (quarter_month history) history).

Definition quarterly_point_of (tk : string) (group : list Row) (h : history)
    (item : Z * list Row) (future_year : Z) : list Row :=
  quarterly_point tk group h (fst item) (quarter_average (snd item))
    (quarter_month (snd item)) (quarter_day (snd item)) future_year.


End Points.

(** The ACTUAL observations of quarter [q]: the list [ticker_quarters]
    holds under the key [q]. *)
Definition quarter_history (group : list Row) (q : Z) : list Row :=
  filter (key_is Z.eqb quarter_key q) group.



(** The order [sort_values] sorts by, as a relation, and the rows that tie. *)
Definition row_le (a b : Row) : Prop := row_leb a b = true.

Definition date_eqb (a b : datetime) : bool :=
  (dt_year a =? dt_year b) && (dt_month a =? dt_month b)
  && (dt_day a =? dt_day b).

Definition date_cell_eqb (a b : option datetime) : bool :=
  match a, b with
  | Some x, Some y => date_eqb x y
  | None, None => true
  | _, _ => false
  end.

(** [same_sort_key k r]: [r] has the ticker and the record date of [k]. *)
Definition same_sort_key (k r : Row) : bool :=
  String.eqb (ticker k) (ticker r)
  && date_cell_eqb (record_date k) (record_date r).

(** The undated rows of one ticker. *)
Definition undated_of (tk : string) (r : Row) : bool :=
  String.eqb tk (ticker r)
  && match record_date r with None => true | Some _ => false end.

(** The labels of the rows of the merged frame. *)
Definition is_engine_label (s : option strategy_label) : bool :=
  match s with
  | Some Quarterly_data | Some Payment_dates | Some Annual_data
  | Some Emergency | Some Inactive_company => true
  | _ => false
  end.

(** The payments of the anniversary (month, day): the list
    [annual_payment_dates] holds under that key. *)
Definition anniversary_payments (group : list Row) (m d : Z) : list Row :=
  filter (key_is md_eqb date_key (m, d)) group.

(** The order in which [groupby] visits the tickers. *)
Definition key_lt (a b : string) : Prop := String.compare a b = Lt.

(** ** Sample data *)

Definition sample_now : datetime := mk_datetime 2024 11 4.

(** One admissible iteration order of a set: first occurrences. *)
Definition first_occurrences (l : list Z) : list Z := nodup Z.eq_dec l.

Definition sample_row (tk : string) (d : option datetime) (v : Q)
    (kind y : Z) (q : option Z) : Row :=
  mk_row tk "Sample" d v (Period_year y) kind (Some y) q None.

(** A security whose only payment is older than the activity window. *)
Definition dormant_group : list Row :=
  [sample_row "OLD" (Some (mk_datetime 2019 5 20)) 5 0 2019 (Some 2)].





(** One payment in the first quarter and a second first-quarter row without
    an amount: two observations of the quarter, one payment in total. *)
Definition single_payment_group : list Row :=
  [sample_row "ONE" (Some (mk_datetime 2023 3 10)) 5 0 2023 (Some 1);
   sample_row "ONE" None 0 0 2024 (Some 1)].

(** Two payments in the first quarter and a lone payment in the third. *)
Definition lone_quarter_row : Row :=
  sample_row "MIX" (Some (mk_datetime 2023 9 20)) 4 0 2023 (Some 3).

Definition mixed_group : list Row :=
  [sample_row "MIX" (Some (mk_datetime 2022 3 10)) 5 0 2022 (Some 1);
   sample_row "MIX" (Some (mk_datetime 2023 3 12)) 7 0 2023 (Some 1);
   lone_quarter_row].

(** The security of the end-to-end example: three ACTUAL first-quarter rows
    of ticker "ABC", with any names, periods and record dates. *)
Definition abc_row (nm : string) (d : option datetime) (p : period_label)
    (v : Q) (y : Z) : Row :=
  mk_row "ABC" nm d v p 0 (Some y) (Some 1) None.

Definition abc_group (n1 n2 n3 : string) (d1 d2 d3 : option datetime)
    (p1 p2 p3 : period_label) : list Row :=
  [abc_row n1 d1 p1 5 2022; abc_row n2 d2 p2 7 2023; abc_row n3 d3 p3 6 2024].


(** A parser object whose cleaned frame holds two securities, and one in
    the last year of the calendar, for which no future date exists. *)
Definition sample_world : World :=
  mk_world (<[ 0%nat := mixed_group ++ dormant_group ]> ∅) 0%nat None.



(** A parser object whose cleaned frame is empty and whose [result_df]
    still refers to the frame of an earlier run. *)
Definition stale_world : World :=
  mk_world (<[ 0%nat := [] ]> (<[ 7%nat := dormant_group ]> ∅)) 0 (Some 7%nat).

(** A single payment on a leap day. *)
Definition leap_day_row : Row :=
  sample_row "LEAP" (Some (mk_datetime 2024 2 29)) 3 0 2024 (Some 1).

Definition leap_day_group : list Row := [leap_day_row].

(** Payments known by their year only. *)
Definition yearly_group : list Row :=
  [sample_row "YRS" None 8 0 2023 None; sample_row "YRS" None 12 0 2024 None].

(** First-quarter payments: one on a leap day, one without a record date. *)
Definition leap_quarter_row : Row :=
  sample_row "FEB" (Some (mk_datetime 2024 2 29)) 4 0 2024 (Some 1).

Definition leap_quarter_group : list Row :=
  [leap_quarter_row; sample_row "FEB" None 6 0 2023 (Some 1)].

(** First-quarter payments without record dates. *)
Definition undated_quarter_group : list Row :=
  [sample_row "UND" None 4 0 2024 (Some 1);
   sample_row "UND" None 6 0 2023 (Some 1)].

(** * Properties *)

(** ** Calendar *)

Lemma is_leap_gregorian y : is_leap y = gregorian_leap y.
Proof.
  unfold is_leap, gregorian_leap.
  destruct (y mod 4 =? 0), (y mod 100 =? 0), (y mod 400 =? 0); reflexivity.
Qed.

Lemma in_list_30 m :
  in_list m [4; 6; 9; 11] = true <-> m = 4 \/ m = 6 \/ m = 9 \/ m = 11.
Proof. unfold in_list; simpl. lia. Qed.

Lemma days_in_month_bounds y m : 28 <= days_in_month y m <= 31.
Proof.
  unfold days_in_month.
  destruct (m =? 2); [destruct (is_leap y); lia|].
  destruct (in_list m [4; 6; 9; 11]); lia.
Qed.

Lemma valid_date_iff y m d :
  valid_date y m d = true <->
  MINYEAR <= y <= MAXYEAR /\ 1 <= m <= 12 /\ 1 <= d <= days_in_month y m.
Proof. unfold valid_date. lia. Qed.

Lemma datetime_valid y m d :
  valid_date y m d = true -> datetime_ y m d = Ret (mk_datetime y m d).
Proof. intros H. unfold datetime_. now rewrite H. Qed.

Lemma datetime_invalid y m d :
  valid_date y m d = false -> datetime_ y m d = Raise ValueError.
Proof. intros H. unfold datetime_. now rewrite H. Qed.

Lemma clamp_spec_valid y m d :
  MINYEAR < y <= MAXYEAR -> 1 <= m <= 12 ->
  valid (clamp_spec y m d) = true.
Proof.
  intros Hy Hm. unfold clamp_spec, last_day_of_previous_month, valid, MINYEAR, MAXYEAR in *.
  destruct ((m =? 2) && (28 <? d)) eqn:E2.
  - destruct (gregorian_leap y) eqn:El; rewrite <- is_leap_gregorian in El;
      cbn [dt_year dt_month dt_day]; apply valid_date_iff;
      unfold days_in_month, MINYEAR, MAXYEAR; rewrite El; simpl; lia.
  - destruct ((30 <? d) && in_list m [4; 6; 9; 11]) eqn:E30.
    + apply andb_true_iff in E30 as [_ E30].
      cbn [dt_year dt_month dt_day]; apply valid_date_iff.
      unfold days_in_month, MINYEAR, MAXYEAR. rewrite E30.
      apply in_list_30 in E30.
      destruct (m =? 2) eqn:Em; [lia|]. lia.
    + destruct (m =? 1) eqn:E1; cbn [dt_year dt_month dt_day];
        apply valid_date_iff; unfold MINYEAR, MAXYEAR.
      * unfold days_in_month; simpl. lia.
      * pose proof (days_in_month_bounds y (m - 1)). lia.
Qed.

(** C4.  A triple (year, month, day) that is not a calendar date, with a
    month the engine can produce (1..12) and a future year inside the range of
    [datetime], is turned into exactly the date the clamping rule names:
    Feb 29/28 for February, day 30 for the 30-day months, otherwise the last
    day of the previous month (Dec 31 of the previous year for January).  In
    particular Feb 29 of a non-leap year becomes Feb 28 and Apr 31 becomes
    Apr 30. *)
Theorem date_clamping_rule (y m d : Z) :
  MINYEAR < y <= MAXYEAR ->
  1 <= m <= 12 ->
  valid_date y m d = false ->
  make_forecast_date y m d = Ret (clamp_spec y m d)
  /\ valid (clamp_spec y m d) = true
  /\ (gregorian_leap y = false ->
      make_forecast_date y 2 29 = Ret (mk_datetime y 2 28))
  /\ make_forecast_date y 4 31 = Ret (mk_datetime y 4 30).
Proof.
  intros Hy Hm Hinv.
  assert (General : forall m' d', 1 <= m' <= 12 -> valid_date y m' d' = false ->
            make_forecast_date y m' d' = Ret (clamp_spec y m' d')).
  { clear m d Hm Hinv. intros m d Hm Hinv.
    unfold make_forecast_date. rewrite (datetime_invalid _ _ _ Hinv).
    unfold clamp_spec, last_day_of_previous_month.
    rewrite <- is_leap_gregorian.
    unfold MINYEAR, MAXYEAR in Hy.
    destruct ((m =? 2) && (28 <? d)) eqn:E2.
    - destruct (is_leap y) eqn:El; apply datetime_valid, valid_date_iff;
        unfold days_in_month, MINYEAR, MAXYEAR; rewrite El; simpl; lia.
    - destruct ((30 <? d) && in_list m [4; 6; 9; 11]) eqn:E30.
      + apply andb_true_iff in E30 as [_ E30].
        apply datetime_valid, valid_date_iff.
        unfold days_in_month, MINYEAR, MAXYEAR. rewrite E30.
        apply in_list_30 in E30.
        destruct (m =? 2) eqn:Em; lia.
      + destruct (1 <? m) eqn:E1.
        * assert (Hv : valid_date y m 1 = true).
          { apply valid_date_iff. pose proof (days_in_month_bounds y m).
            unfold MINYEAR, MAXYEAR. lia. }
          rewrite (datetime_valid _ _ _ Hv). simpl.
          rewrite E1. destruct (m =? 1) eqn:Em; [lia|]. reflexivity.
        * assert (m = 1) by lia. subst m. simpl.
          apply datetime_valid, valid_date_iff.
          unfold days_in_month, MINYEAR, MAXYEAR; simpl. lia. }
  split; [now apply General|].
  split; [now apply clamp_spec_valid|].
  unfold MINYEAR, MAXYEAR in Hy.
  split.
  - intros Hleap. rewrite General.
    + unfold clamp_spec. simpl. now rewrite Hleap.
    + lia.
    + rewrite <- is_leap_gregorian in Hleap.
      unfold valid_date, days_in_month. rewrite Hleap. simpl. lia.
  - rewrite General.
    + reflexivity.
    + lia.
    + unfold valid_date, days_in_month. simpl. lia.
Qed.

Lemma date_clamping_rule_witness :
  valid_date 2025 2 29 = false
  /\ make_forecast_date 2025 2 29 = Ret (mk_datetime 2025 2 28)
  /\ make_forecast_date 2025 4 31 = Ret (mk_datetime 2025 4 30).
Proof.
  split; [reflexivity|].
  destruct (date_clamping_rule 2025 2 29) as (H1 & _ & _ & H4).
  - unfold MINYEAR, MAXYEAR; lia.
  - lia.
  - reflexivity.
  - split; [exact H1 | exact H4].
Defined.

(** ** The loops append what the list functions say *)

Lemma push_nil s : push s [] = s.
Proof.
  destruct s as [fd n]. unfold push; simpl.
  rewrite app_nil_r. f_equal. unfold len; simpl. lia.
Qed.

Lemma push_app s a b : push (push s a) b = push s (a ++ b).
Proof.
  unfold push; simpl. rewrite <- app_assoc. f_equal.
  unfold len. rewrite length_app. lia.
Qed.

Lemma for_each_push {B} (body : B -> M unit) (f : B -> list Row) :
  (forall x s, body x s = (Ret tt, push s (f x))) ->
  forall l s, for_each l body s = (Ret tt, push s (flat_map f l)).
Proof.
  intros Hbody l. induction l as [|x l IH]; intros s; simpl.
  - unfold pass, ret. now rewrite push_nil.
  - unfold bind. rewrite Hbody, IH, push_app. reflexivity.
Qed.

Lemma grid_point_run tk group v label quarter month day future_year s :
  try_except
    (forecast_date <- lift (make_forecast_date future_year month day) ;;
     nm <- lift (group_name group) ;;
     append_forecast
       (forecast_row tk nm forecast_date v
          (Period_quarter quarter future_year) future_year
          (Some quarter) label) ;;
     count_forecast)
    (fun _ => pass) s
  = (Ret tt, push s (grid_point tk group v label quarter month day future_year)).
Proof.
  unfold try_except, bind, lift, grid_point, pass, ret.
  destruct (make_forecast_date future_year month day);
    [destruct (group_name group)|]; simpl;
    try (now rewrite push_nil); reflexivity.
Qed.

Lemma quarter_grid_run current_year years tk group v label s :
  quarter_grid current_year years tk group v label s
  = (Ret tt, push s (grid_rows current_year years tk group v label)).
Proof.
  unfold quarter_grid, grid_rows.
  apply for_each_push. intros [quarter [month day]] s'.
  apply for_each_push. intros future_year s''.
  apply grid_point_run.
Qed.

Lemma inactive_company_run current_year years tk group s :
  inactive_company current_year years tk group s
  = (Ret tt, push s (grid_rows current_year years tk group 0%Q Inactive_company)).
Proof.
  unfold inactive_company, try_except. now rewrite quarter_grid_run.
Qed.

Lemma emergency_run current_year years tk group s :
  emergency current_year years tk group s
  = (Ret tt, push s (grid_rows current_year years tk group 0%Q Emergency)).
Proof.
  unfold emergency, try_except. now rewrite quarter_grid_run.
Qed.

Lemma mean_nonempty (l : list Q) :
  l <> [] -> mean l = Ret (qsum l / inject_Z (len l))%Q.
Proof.
  intros Hl. unfold mean, len.
  destruct l; [congruence|]. reflexivity.
Qed.

Lemma int_mean_nonempty (l : list Z) :
  l <> [] -> int_mean l = Ret (zsum l / len l).
Proof.
  intros Hl. unfold int_mean, len.
  destruct l; [congruence|]. reflexivity.
Qed.

Lemma payment_point_run tk group quarter avg month day future_year s :
  try_except
    (forecast_date <- lift (make_forecast_date future_year month day) ;;
     nm <- lift (group_name group) ;;
     append_forecast
       (forecast_row tk nm forecast_date (round2 avg)
          (Period_quarter quarter future_year) future_year
          (Some quarter) Payment_dates) ;;
     count_forecast)
    (fun _ => pass) s
  = (Ret tt, push s (payment_point tk group quarter avg month day future_year)).
Proof.
  unfold try_except, bind, lift, payment_point, pass, ret.
  destruct (make_forecast_date future_year month day);
    [destruct (group_name group)|]; simpl;
    try (now rewrite push_nil); reflexivity.
Qed.

Lemma quarterly_point_run tk group h quarter avg m d future_year s :
  try_except
    (dv <- match site_override (site_forecasts h !! (future_year, quarter)) with
           | Some dv => ret dv
           | None =>
               forecast_date <- lift (make_forecast_date future_year m d) ;;
               ret (forecast_date, round2 avg)
           end ;;
     nm <- lift (group_name group) ;;
     append_forecast
       (forecast_row tk nm (fst dv) (snd dv)
          (Period_quarter quarter future_year) future_year
          (Some quarter) Quarterly_data) ;;
     count_forecast)
    (fun _ => pass) s
  = (Ret tt, push s (quarterly_point tk group h quarter avg m d future_year)).
Proof.
  unfold try_except, bind, lift, quarterly_point, pass, ret, obind.
  destruct (site_override (site_forecasts h !! (future_year, quarter))) as [dv|].
  - destruct (group_name group); simpl;
      try (now rewrite push_nil); reflexivity.
  - destruct (make_forecast_date future_year m d);
      [destruct (group_name group)|]; simpl;
      try (now rewrite push_nil); reflexivity.
Qed.

Section Runs.

Variable now : datetime.
Variable set_iter : list Z -> list Z.

(** Iterating over [set(l)] visits the elements of [l]. *)
Hypothesis set_iter_spec : forall l x, In x (set_iter l) <-> In x l.

Lemma set_iter_nonempty l : l <> [] -> set_iter l <> [].
Proof using set_iter_spec.
  intros Hl Hs. destruct l as [|x l]; [congruence|].
  assert (Hin : In x (set_iter (x :: l))) by (apply set_iter_spec; now left).
  rewrite Hs in Hin. contradiction.
Qed.

Lemma max_from_in key best it :
  max_from key best it = best \/ In (max_from key best it) it.
Proof.
  revert best. induction it as [|x it IH]; intros best; simpl; [now left|].
  destruct (key best <? key x).
  - destruct (IH x) as [-> | H]; auto.
  - destruct (IH best) as [-> | H]; auto.
Qed.

Lemma most_common_ret l :
  l <> [] -> exists x, most_common set_iter l = Ret x /\ In x l.
Proof using set_iter_spec.
  intros Hl. unfold most_common, py_max.
  pose proof (set_iter_nonempty l Hl) as Hne.
  destruct (set_iter l) as [|x it] eqn:E; [congruence|].
  eexists; split; [reflexivity|].
  apply set_iter_spec. rewrite E.
  destruct (max_from_in (count l) x it) as [-> | H]; [now left | now right].
Qed.

Lemma typical_month_ret history :
  exists m, typical_month now set_iter history = Ret m
            /\ (m = dt_month now \/ In m (omap month history)).
Proof using set_iter_spec.
  unfold typical_month.
  destruct (omap month history) as [|x l] eqn:E.
  - eexists; split; [reflexivity | now left].
  - destruct (most_common_ret (x :: l)) as (m & Hm & Hin); [congruence|].
    exists m; split; [exact Hm | now right].
Qed.

Lemma typical_day_ret m history :
  exists d, typical_day m history = Ret d.
Proof.
  unfold typical_day.
  match goal with |- context [omap ?f history] => destruct (omap f history) eqn:E end.
  - eexists; reflexivity.
  - rewrite int_mean_nonempty by congruence. eexists; reflexivity.
Qed.

Lemma quarterly_item_run current_year years tk group h item s :
  (let '(quarter, history) := item in
   match history with
   | [] => pass
   | _ =>
       avg_dividend <- lift (mean (map dividend_value history)) ;;
       most_common_month <- lift (typical_month now set_iter history) ;;
       most_common_day <- lift (typical_day most_common_month history) ;;
       for_each (range (current_year + 1) (current_year + years + 1))
         (fun future_year =>
           try_except
             (dv <- match site_override
                            (site_forecasts h !! (future_year, quarter)) with
                    | Some dv => ret dv
                    | None =>
                        forecast_date <-
                          lift (make_forecast_date future_year
                                  most_common_month most_common_day) ;;
                        ret (forecast_date, round2 avg_dividend)
                    end ;;
              nm <- lift (group_name group) ;;
              append_forecast
                (forecast_row tk nm (fst dv) (snd dv)
                   (Period_quarter quarter future_year) future_year
                   (Some quarter) Quarterly_data) ;;
              count_forecast)
             (fun _ => pass))
   end) s
  = (Ret tt, push s (quarterly_item_rows now set_iter current_year years
                       tk group h item)).
Proof using set_iter_spec.
  destruct item as [quarter history]. unfold quarterly_item_rows.
  destruct history as [|r history].
  - unfold pass, ret. now rewrite push_nil.
  - set (hist := r :: history).
    rewrite (mean_nonempty (map dividend_value hist)) by (subst hist; simpl; congruence).
    destruct (typical_month_ret hist) as (m & Hm & _). rewrite Hm.
    destruct (typical_day_ret m hist) as (d & Hd). rewrite Hd.
    unfold bind at 1, lift at 1. unfold bind at 1, lift at 1.
    unfold bind at 1, lift at 1. rewrite Hd.
    unfold future_years.
    apply for_each_push. intros future_year s'.
    apply quarterly_point_run.
Qed.

Lemma quarterly_data_run current_year years tk group h s :
  quarterly_data now set_iter current_year years tk group h s
  = (Ret tt, push s (quarterly_rows now set_iter current_year years tk group h)).
Proof using set_iter_spec.
  unfold quarterly_data, quarterly_rows.
  apply for_each_push. intros item s'.
  rewrite <- quarterly_item_run. destruct item; reflexivity.
Qed.

Lemma payment_item_run current_year years tk group item s :
  (let '((month, day), payments) := item in
   try_except
     (avg_dividend <- lift (mean (map dividend_value payments)) ;;
      let quarters := omap quarter payments in
      quarter <- lift (match quarters with
                       | [] => Ret ((month - 1) / 3 + 1)
                       | _ => most_common set_iter quarters
                       end) ;;
      for_each (range (current_year + 1) (current_year + years + 1))
        (fun future_year =>
          try_except
            (forecast_date <-
               lift (make_forecast_date future_year month day) ;;
             nm <- lift (group_name group) ;;
             append_forecast
               (forecast_row tk nm forecast_date (round2 avg_dividend)
                  (Period_quarter quarter future_year) future_year
                  (Some quarter) Payment_dates) ;;
             count_forecast)
            (fun _ => pass)))
     (fun _ => pass)) s
  = (Ret tt, push s (payment_item_rows set_iter current_year years tk group item)).
Proof.
  destruct item as [[month day] payments].
  unfold payment_item_rows, group_quarter, try_except.
  unfold bind at 1, lift at 1.
  destruct (mean (map dividend_value payments)) as [avg|e].
  - unfold bind at 1, lift at 1.
    assert (Hq : match omap quarter payments with
                 | [] => Ret ((month - 1) / 3 + 1)
                 | _ :: _ => most_common set_iter (omap quarter payments)
                 end
                 = match omap quarter payments with
                   | [] => Ret ((month - 1) / 3 + 1)
                   | q :: qs => most_common set_iter (q :: qs)
                   end).
    { destruct (omap quarter payments); reflexivity. }
    rewrite Hq.
    match goal with |- context [push s match ?o with _ => _ end] =>
      destruct o as [q|e] end.
    + unfold future_years.
      rewrite (for_each_push _ (payment_point tk group q avg month day)).
      * reflexivity.
      * intros future_year s'. apply payment_point_run.
    + unfold pass, ret. now rewrite push_nil.
  - unfold pass, ret. now rewrite push_nil.
Qed.

Lemma payment_dates_run current_year years tk group h s :
  payment_dates set_iter current_year years tk group h s
  = (Ret tt, push s (payment_rows set_iter current_year years tk group h)).
Proof.
  unfold payment_dates, payment_rows.
  apply for_each_push. intros item s'.
  rewrite <- payment_item_run. destruct item as [[month day] payments].
  reflexivity.
Qed.

Lemma single_annual_mean_raises current_year years tk group h e s :
  mean (map dividend_value (all_payments h)) = Raise e ->
  single_annual set_iter current_year years tk group h s = (Ret tt, s).
Proof.
  intros Hmean. unfold single_annual, try_except.
  unfold bind at 1, lift at 1.
  match goal with |- context [match ?o with Ret _ => _ | Raise _ => _ end] =>
    destruct o as [m|e1] end; [|reflexivity].
  unfold bind at 1, lift at 1.
  match goal with |- context [match ?o with Ret _ => _ | Raise _ => _ end] =>
    destruct o as [d|e2] end; [|reflexivity].
  unfold bind at 1, lift at 1. rewrite Hmean. reflexivity.
Qed.

Lemma annual_data_run current_year years tk group h s :
  annual_data set_iter current_year years tk group h s
  = (Ret tt, push s (annual_rows current_year years tk group h)).
Proof.
  unfold annual_data, annual_rows, try_except.
  unfold bind at 1, lift at 1.
  destruct (mean (map dividend_value (all_payments h))) as [avg|e] eqn:E.
  - now rewrite quarter_grid_run.
  - rewrite push_nil. eapply single_annual_mean_raises; eauto.
Qed.

Lemma len_is_empty {A} (l : list A) : (len l =? 0) = is_empty l.
Proof. destruct l; reflexivity. Qed.

Lemma forecast_ticker_run years history_years tk group s :
  forecast_ticker now set_iter years history_years tk group s
  = (Ret tt,
     mk_locals
       (forecast_data s ++ ticker_rows now set_iter years history_years tk group)
       (len (ticker_rows now set_iter years history_years tk group))).
Proof using set_iter_spec.
  unfold forecast_ticker, ticker_rows.
  set (cy := dt_year now).
  set (h := analyse (cy - history_years) group).
  unfold bind at 1, reset_count at 1.
  set (s0 := mk_locals (forecast_data s) 0).
  assert (Hpush : forall rows,
             push s0 rows = mk_locals (forecast_data s ++ rows) (len rows)).
  { intros rows. reflexivity. }
  destruct (Qeq_bool (recent_payments_sum h) 0).
  - rewrite inactive_company_run. now rewrite Hpush.
  - unfold chain_rows.
    set (r1 := if has_quarterly_data h
               then quarterly_rows now set_iter cy years tk group h else []).
    unfold bind at 1.
    assert (H1 : (if has_quarterly_data h
                  then quarterly_data now set_iter cy years tk group h
                  else pass) s0 = (Ret tt, push s0 r1)).
    { subst r1. destruct (has_quarterly_data h).
      - apply quarterly_data_run.
      - unfold pass, ret. now rewrite push_nil. }
    rewrite H1. unfold bind at 1, get_count at 1.
    replace (ticker_forecast_count (push s0 r1)) with (len r1)
      by (unfold push, s0; simpl; lia).
    rewrite len_is_empty.
    set (r2 := if is_empty r1 && negb (is_empty (annual_payment_dates h))
               then payment_rows set_iter cy years tk group h else r1).
    unfold bind at 1.
    assert (H2 : (if is_empty r1 && negb (is_empty (annual_payment_dates h))
                  then payment_dates set_iter cy years tk group h
                  else pass) (push s0 r1) = (Ret tt, push s0 r2)).
    { subst r2.
      destruct (is_empty r1 && negb (is_empty (annual_payment_dates h))) eqn:E.
      - rewrite payment_dates_run, push_app.
        apply andb_true_iff in E as [E _].
        destruct r1; [reflexivity | discriminate].
      - reflexivity. }
    rewrite H2. unfold bind at 1, get_count at 1.
    replace (ticker_forecast_count (push s0 r2)) with (len r2)
      by (unfold push, s0; simpl; lia).
    rewrite len_is_empty.
    set (r3 := if is_empty r2 && (len (all_payments h) >? 0)
               then annual_rows cy years tk group h else r2).
    unfold bind at 1.
    assert (H3 : (if is_empty r2 && (len (all_payments h) >? 0)
                  then annual_data set_iter cy years tk group h
                  else pass) (push s0 r2) = (Ret tt, push s0 r3)).
    { subst r3.
      destruct (is_empty r2 && (len (all_payments h) >? 0)) eqn:E.
      - rewrite annual_data_run, push_app.
        apply andb_true_iff in E as [E _].
        destruct r2; [reflexivity | discriminate].
      - reflexivity. }
    rewrite H3. unfold bind at 1, get_count at 1.
    replace (ticker_forecast_count (push s0 r3)) with (len r3)
      by (unfold push, s0; simpl; lia).
    rewrite len_is_empty.
    destruct (is_empty r3) eqn:E.
    + rewrite emergency_run, push_app.
      destruct r3; [|discriminate]. simpl. now rewrite Hpush.
    + unfold pass, ret. now rewrite Hpush.
Qed.

Lemma emitted_rows years history_years tk group :
  emitted now set_iter years history_years tk group
  = ticker_rows now set_iter years history_years tk group.
Proof using set_iter_spec.
  unfold emitted. now rewrite forecast_ticker_run.
Qed.

Lemma forecast_groups_run years history_years df s :
  exists n,
    forecast_groups now set_iter years history_years df s
    = (Ret tt,
       mk_locals
         (forecast_data s ++
          flat_map (fun '(tk, group) =>
                      ticker_rows now set_iter years history_years tk group)
            (groupby_ticker df))
         n).
Proof using set_iter_spec.
  unfold forecast_groups.
  generalize (groupby_ticker df) as groups.
  intros groups. revert s.
  induction groups as [|[tk group] groups IH]; intros s; simpl.
  - exists (ticker_forecast_count s). unfold pass, ret.
    rewrite app_nil_r. now destruct s.
  - unfold bind at 1. rewrite forecast_ticker_run.
    destruct (IH (mk_locals
                    (forecast_data s ++
                     ticker_rows now set_iter years history_years tk group)
                    (len (ticker_rows now set_iter years history_years tk group))))
      as (n & Hn).
    exists n. rewrite Hn. simpl. now rewrite <- app_assoc.
Qed.

End Runs.

(** ** Lists *)

Lemma in_range a b y : In y (range a b) <-> a <= y < b.
Proof.
  unfold range. rewrite in_map_iff. split.
  - intros (i & <- & Hi). apply in_seq in Hi. lia.
  - intros H. exists (Z.to_nat (y - a)). split; [lia|].
    apply in_seq. lia.
Qed.

Lemma NoDup_range a b : NoDup (range a b).
Proof.
  unfold range.
  generalize (Z.to_nat (b - a)) as n. generalize 0%nat as k.
  intros k n. revert k. induction n as [|n IH]; intros k; simpl.
  - constructor.
  - constructor; [|apply IH].
    rewrite in_map_iff. intros (i & Hi & Hin). apply in_seq in Hin. lia.
Qed.

Lemma length_range a b : length (range a b) = Z.to_nat (b - a).
Proof. unfold range. now rewrite length_map, length_seq. Qed.

Lemma in_future_years cy years y :
  In y (future_years cy years) <-> cy + 1 <= y <= cy + years.
Proof. unfold future_years. rewrite in_range. lia. Qed.

Lemma md_eqb_eq a b : md_eqb a b = true <-> a = b.
Proof.
  destruct a as [a1 a2], b as [b1 b2]. unfold md_eqb; simpl.
  rewrite andb_true_iff, !Z.eqb_eq. split; [intros [-> ->]|intros [= -> ->]]; auto.
Qed.

Section Dict.

Context {K V : Type}.
Variable eqb : K -> K -> bool.
Hypothesis eqb_eq : forall a b, eqb a b = true <-> a = b.

Lemma dict_append_keys k (v : V) (d : list (K * list V)) k' :
  In k' (map fst (dict_append eqb k v d)) <-> k' = k \/ In k' (map fst d).
Proof using eqb_eq.
  induction d as [|[k0 vs] d IH]; simpl.
  - intuition.
  - destruct (eqb k k0) eqn:E; simpl.
    + apply eqb_eq in E. subst k0. intuition.
    + rewrite IH. intuition.
Qed.

Lemma dict_append_NoDup k (v : V) (d : list (K * list V)) :
  NoDup (map fst d) -> NoDup (map fst (dict_append eqb k v d)).
Proof using eqb_eq.
  induction d as [|[k0 vs] d IH]; simpl; intros Hnd.
  - constructor; [intros []|constructor].
  - destruct (eqb k k0) eqn:E; simpl; [exact Hnd|].
    apply NoDup_cons_iff in Hnd as [Hnin Hnd].
    constructor; [|now apply IH].
    rewrite dict_append_keys. intros [->|Hin]; [|contradiction].
    assert (eqb k k = true) by now apply eqb_eq. congruence.
Qed.

Lemma dict_append_in k (v : V) (d : list (K * list V)) k' vs' :
  NoDup (map fst d) ->
  In (k', vs') (dict_append eqb k v d) ->
  (k' <> k /\ In (k', vs') d)
  \/ (k' = k /\ ((exists vs, In (k, vs) d /\ vs' = vs ++ [v])
                 \/ (~ In k (map fst d) /\ vs' = [v]))).
Proof using eqb_eq.
  induction d as [|[k0 vs] d IH]; simpl; intros Hnd.
  - intros [[= <- <-]|[]]. right. split; [reflexivity|]. right. intuition.
  - destruct (eqb k k0) eqn:E; simpl.
    + apply eqb_eq in E. subst k0. intros [[= <- <-]|Hin].
      * right. split; [reflexivity|]. left. exists vs. intuition.
      * destruct (eqb k k') eqn:E'.
        -- apply eqb_eq in E'. subst k'. exfalso.
           apply NoDup_cons_iff in Hnd as [Hnin _]. apply Hnin.
           apply in_map_iff. exists (k, vs'). split; [reflexivity | exact Hin].
        -- left. split; [|now right]. intros ->.
           assert (eqb k k = true) by now apply eqb_eq. congruence.
    + intros [[= <- <-]|Hin].
      * left. split; [|now left]. intros ->.
        assert (eqb k k = true) by now apply eqb_eq. congruence.
      * apply NoDup_cons_iff in Hnd as [Hnin Hnd].
        destruct (IH Hnd Hin) as [[Hne Hd]|[-> Hd]].
        -- left. split; [exact Hne | now right].
        -- right. split; [reflexivity|].
           destruct Hd as [(vs0 & Hvs0 & ->)|[Hnin' ->]].
           ++ left. exists vs0. split; [now right | reflexivity].
           ++ right. split; [|reflexivity].
              intros [<-|Hin']; [|contradiction].
              assert (eqb k0 k0 = true) by now apply eqb_eq. congruence.
Qed.

End Dict.

Section DictOf.

Context {K V : Type}.
Variable eqb : K -> K -> bool.
Variable key : V -> option K.
Hypothesis eqb_eq : forall a b, eqb a b = true <-> a = b.

Lemma dict_of_snoc l v :
  dict_of eqb key (l ++ [v]) = dict_step eqb key (dict_of eqb key l) v.
Proof. unfold dict_of. now rewrite fold_left_app. Qed.

Lemma key_is_true k v : key_is eqb key k v = true <-> key v = Some k.
Proof using eqb_eq.
  unfold key_is. destruct (key v) as [k'|].
  - rewrite eqb_eq. split; [now intros -> | now intros [= ->]].
  - split; discriminate.
Qed.

Lemma key_is_false k v : key v <> Some k -> key_is eqb key k v = false.
Proof using eqb_eq.
  intros H. destruct (key_is eqb key k v) eqn:E; [|reflexivity].
  apply key_is_true in E. contradiction.
Qed.

Lemma filter_nil_iff (f : V -> bool) l :
  filter f l = [] <-> forall v, In v l -> f v = false.
Proof.
  induction l as [|x l IH]; simpl.
  - split; [intros _ v [] | reflexivity].
  - destruct (f x) eqn:E.
    + split; [discriminate|]. intros H. specialize (H x (or_introl eq_refl)).
      congruence.
    + rewrite IH. split.
      * intros H v [<-|Hin]; auto.
      * intros H v Hin. apply H. now right.
Qed.

Lemma dict_of_inv l :
  NoDup (map fst (dict_of eqb key l))
  /\ (forall k vs, In (k, vs) (dict_of eqb key l) ->
                   vs = filter (key_is eqb key k) l /\ vs <> [])
  /\ (forall v k, In v l -> key v = Some k ->
                  In k (map fst (dict_of eqb key l))).
Proof using eqb_eq.
  induction l as [|v l (Hnd & Hent & Hkeys)] using rev_ind.
  - repeat split; try constructor; simpl; intros; contradiction.
  - rewrite dict_of_snoc. unfold dict_step.
    destruct (key v) as [k|] eqn:Ekey.
    + split; [now apply dict_append_NoDup|]. split.
      * intros k' vs' Hin. rewrite filter_app. simpl.
        apply dict_append_in in Hin; [|assumption|assumption].
        destruct Hin as [[Hne Hin]|[-> [(vs & Hin & ->)|[Hnin ->]]]].
        -- rewrite key_is_false by (rewrite Ekey; congruence).
           rewrite app_nil_r. now apply Hent.
        -- replace (key_is eqb key k v) with true
             by (symmetry; now apply key_is_true).
           destruct (Hent _ _ Hin) as [-> _].
           split; [reflexivity|]. intros E. now apply app_eq_nil in E as [_ [=]].
        -- replace (key_is eqb key k v) with true
             by (symmetry; now apply key_is_true).
           assert (Hnil : filter (key_is eqb key k) l = []).
           { apply filter_nil_iff. intros v' Hv'.
             destruct (key_is eqb key k v') eqn:E; [|reflexivity].
             apply key_is_true in E. exfalso. eauto. }
           rewrite Hnil. split; [reflexivity | discriminate].
      * intros v' k' Hin Hk'. apply dict_append_keys; [assumption|].
        apply in_app_or in Hin as [Hin|[<-|[]]].
        -- right. eauto.
        -- left. congruence.
    + split; [assumption|]. split.
      * intros k' vs' Hin. rewrite filter_app. simpl.
        rewrite key_is_false by (rewrite Ekey; congruence).
        rewrite app_nil_r. now apply Hent.
      * intros v' k' Hin Hk'.
        apply in_app_or in Hin as [Hin|[<-|[]]]; [eauto | congruence].
Qed.

Lemma dict_of_NoDup l : NoDup (map fst (dict_of eqb key l)).
Proof using eqb_eq. apply dict_of_inv. Qed.

Lemma dict_of_entry l k vs :
  In (k, vs) (dict_of eqb key l) ->
  vs = filter (key_is eqb key k) l /\ vs <> [].
Proof using eqb_eq. apply dict_of_inv. Qed.

Lemma dict_of_has_entry l v k :
  In v l -> key v = Some k ->
  In (k, filter (key_is eqb key k) l) (dict_of eqb key l).
Proof using eqb_eq.
  intros Hin Hk.
  destruct (dict_of_inv l) as (_ & Hent & Hkeys).
  specialize (Hkeys _ _ Hin Hk). apply in_map_iff in Hkeys as ([k' vs] & Hfst & Hd).
  simpl in Hfst. subst k'. destruct (Hent _ _ Hd) as [-> _]. exact Hd.
Qed.

End DictOf.

(** ** The history the first loop builds *)

Lemma fold_left_proj {S P R} (step : S -> R -> S) (stepP : P -> R -> P)
    (proj : S -> P) :
  (forall h r, proj (step h r) = stepP (proj h) r) ->
  forall l h, proj (fold_left step l h) = fold_left stepP l (proj h).
Proof.
  intros Hstep l. induction l as [|r l IH]; intros h; simpl; [reflexivity|].
  now rewrite IH, Hstep.
Qed.

Ltac analyse_cases r :=
  unfold analyse_row, dict_step, quarter_key, date_key, site_key,
    counts_recent, is_payment, is_actual, has_year;
  destruct (forecast_type r =? 0) eqn:?; destruct (year r) eqn:?;
  destruct (Qgtb (dividend_value r) 0) eqn:?; destruct (quarter r) eqn:?;
  destruct (record_date r) eqn:?; destruct (forecast_type r =? 1) eqn:?;
  simpl; try reflexivity; try lia.

Section Analysis.

Variable ray : Z.

Lemma analyse_row_ticker_quarters h r :
  ticker_quarters (analyse_row ray h r)
  = dict_step Z.eqb quarter_key (ticker_quarters h) r.
Proof. analyse_cases r. Qed.

Lemma analyse_row_annual_payment_dates h r :
  annual_payment_dates (analyse_row ray h r)
  = dict_step md_eqb date_key (annual_payment_dates h) r.
Proof. analyse_cases r. Qed.

Lemma analyse_row_all_payments h r :
  all_payments (analyse_row ray h r)
  = all_payments h ++ (if is_payment r then [r] else []).
Proof. analyse_cases r; now rewrite app_nil_r. Qed.

Lemma analyse_row_site_forecasts h r :
  site_forecasts (analyse_row ray h r)
  = match site_key r with
    | Some k => <[ k := r ]> (site_forecasts h)
    | None => site_forecasts h
    end.
Proof. analyse_cases r. Qed.

Lemma analyse_row_recent_payments_sum h r :
  recent_payments_sum (analyse_row ray h r)
  = if counts_recent ray r
    then (recent_payments_sum h + dividend_value r)%Q
    else recent_payments_sum h.
Proof. analyse_cases r; destruct (_ >=? ray); reflexivity. Qed.

Lemma ticker_quarters_analyse group :
  ticker_quarters (analyse ray group) = dict_of Z.eqb quarter_key group.
Proof.
  unfold analyse, dict_of.
  now rewrite (fold_left_proj _ _ ticker_quarters analyse_row_ticker_quarters).
Qed.

Lemma annual_payment_dates_analyse group :
  annual_payment_dates (analyse ray group) = dict_of md_eqb date_key group.
Proof.
  unfold analyse, dict_of.
  now rewrite (fold_left_proj _ _ annual_payment_dates
                 analyse_row_annual_payment_dates).
Qed.

Lemma all_payments_analyse group :
  all_payments (analyse ray group) = filter is_payment group.
Proof.
  unfold analyse.
  rewrite (fold_left_proj _ (fun l r => l ++ (if is_payment r then [r] else []))
             all_payments analyse_row_all_payments).
  simpl.
  assert (Hacc : forall acc,
             fold_left (fun l r => l ++ (if is_payment r then [r] else []))
               group acc = acc ++ filter is_payment group).
  { induction group as [|r group IH]; intros acc; simpl.
    - now rewrite app_nil_r.
    - rewrite IH. destruct (is_payment r); simpl.
      + now rewrite <- app_assoc.
      + now rewrite app_nil_r. }
  apply Hacc.
Qed.

Lemma site_forecasts_analyse group y q :
  site_forecasts (analyse ray group) !! (y, q) = site_record group y q.
Proof.
  unfold analyse, site_record.
  rewrite (fold_left_proj _
             (fun m r => match site_key r with
                         | Some k => <[ k := r ]> m
                         | None => m
                         end)
             site_forecasts analyse_row_site_forecasts).
  simpl. induction group as [|r group IH] using rev_ind; simpl.
  - apply lookup_empty.
  - rewrite fold_left_app, rev_app_distr. simpl.
    destruct (site_key r) as [k|] eqn:Ek; simpl.
    + destruct (md_eqb k (y, q)) eqn:E.
      * apply md_eqb_eq in E. subst k. apply lookup_insert_eq.
      * rewrite lookup_insert_ne; [exact IH|].
        intros ->. assert (md_eqb (y, q) (y, q) = true) by now apply md_eqb_eq.
        congruence.
    + exact IH.
Qed.

Lemma recent_payments_sum_analyse group :
  recent_payments_sum (analyse ray group)
  = fold_left (fun acc r => if counts_recent ray r
                            then (acc + dividend_value r)%Q else acc)
      group 0%Q.
Proof.
  unfold analyse.
  now rewrite (fold_left_proj _
                 (fun acc r => if counts_recent ray r
                               then (acc + dividend_value r)%Q else acc)
                 recent_payments_sum analyse_row_recent_payments_sum).
Qed.

End Analysis.

(** ** The fixed grid *)

Lemma make_forecast_date_valid y m d :
  valid_date y m d = true ->
  make_forecast_date y m d = Ret (mk_datetime y m d).
Proof.
  intros H. unfold make_forecast_date. now rewrite (datetime_valid _ _ _ H).
Qed.

Lemma flat_map_singleton {A B} (f : A -> list B) (g : A -> B) l :
  (forall x, In x l -> f x = [g x]) -> flat_map f l = map g l.
Proof.
  induction l as [|x l IH]; intros H; simpl; [reflexivity|].
  rewrite H by now left. simpl. f_equal. apply IH. intros y Hy. apply H. now right.
Qed.

Lemma future_years_in_calendar now years y :
  valid now = true -> dt_year now + years <= MAXYEAR ->
  In y (future_years (dt_year now) years) ->
  MINYEAR < y <= MAXYEAR.
Proof.
  intros Hnow Hmax Hy. apply in_future_years in Hy.
  apply valid_date_iff in Hnow. unfold MINYEAR, MAXYEAR in *. lia.
Qed.

Lemma grid_point_map tk r group v label q m ys :
  (forall y, In y ys -> MINYEAR < y <= MAXYEAR) ->
  In m [3; 6; 9; 12] ->
  flat_map (grid_point tk (r :: group) v label q m 15) ys
  = map (fun y => forecast_row tk (name r) (mk_datetime y m 15) v
                    (Period_quarter q y) y (Some q) label) ys.
Proof.
  intros Hy Hm. apply flat_map_singleton. intros y Hin.
  unfold grid_point. rewrite make_forecast_date_valid; [reflexivity|].
  apply valid_date_iff. specialize (Hy y Hin).
  unfold days_in_month, MINYEAR, MAXYEAR in *.
  simpl in Hm. destruct Hm as [<-|[<-|[<-|[<-|[]]]]]; simpl; lia.
Qed.

Lemma grid_rows_fixed current_year years tk r group v label :
  (forall y, In y (future_years current_year years) -> MINYEAR < y <= MAXYEAR) ->
  grid_rows current_year years tk (r :: group) v label
  = fixed_grid tk (name r) current_year years v label.
Proof.
  intros Hy. unfold grid_rows, fixed_grid. simpl.
  rewrite !grid_point_map by (try assumption; simpl; tauto).
  reflexivity.
Qed.

Lemma filter_flat_map {A B} (p : B -> bool) (g : A -> list B) l :
  filter p (flat_map g l) = flat_map (fun x => filter p (g x)) l.
Proof.
  induction l as [|x l IH]; simpl; [reflexivity|].
  now rewrite filter_app, IH.
Qed.

Lemma flat_map_nil {A B} (g : A -> list B) l :
  (forall x, In x l -> g x = []) -> flat_map g l = [].
Proof.
  induction l as [|x l IH]; intros H; simpl; [reflexivity|].
  rewrite H by now left. apply IH. intros y Hy. apply H. now right.
Qed.

Lemma filter_all {A} (p : A -> bool) l :
  (forall x, In x l -> p x = true) -> filter p l = l.
Proof.
  induction l as [|x l IH]; intros H; simpl; [reflexivity|].
  rewrite H by now left. f_equal. apply IH. intros y Hy. apply H. now right.
Qed.

Lemma filter_none {A} (p : A -> bool) l :
  (forall x, In x l -> p x = false) -> filter p l = [].
Proof.
  induction l as [|x l IH]; intros H; simpl; [reflexivity|].
  rewrite H by now left. apply IH. intros y Hy. apply H. now right.
Qed.

(** In a list produced item by item and year by year, where every row
    carries the quarter of its item and its year, the rows for one item and
    one year are those of that point. *)
Lemma records_for_points {A} (f : A -> Z -> list Row) (ka : A -> Z)
    (items : list A) (ys : list Z) (a : A) (y : Z) :
  (forall a' y' x, In x (f a' y') ->
                   quarter x = Some (ka a') /\ year x = Some y') ->
  NoDup (map ka items) -> NoDup ys -> In a items -> In y ys ->
  records_for (Some (ka a)) y (flat_map (fun a' => flat_map (f a') ys) items)
  = f a y.
Proof.
  intros Hkey Hitems Hys Ha Hy. unfold records_for.
  set (p := fun r : Row =>
              opt_eqb (quarter r) (Some (ka a)) && opt_eqb (year r) (Some y)).
  assert (Hother : forall a', ka a' <> ka a ->
                     filter p (flat_map (f a') ys) = []).
  { intros a' Hne. apply filter_none. intros x Hx.
    apply in_flat_map in Hx as (y' & _ & Hx).
    destruct (Hkey _ _ _ Hx) as [Hq _]. subst p. simpl. rewrite Hq. simpl.
    destruct (ka a' =? ka a) eqn:E; [apply Z.eqb_eq in E; contradiction|].
    reflexivity. }
  assert (Hsame : filter p (flat_map (f a) ys) = f a y).
  { clear Hother Hitems Ha. induction ys as [|y0 ys IH]; [contradiction|].
    apply NoDup_cons_iff in Hys as [Hnin Hys]. simpl. rewrite filter_app.
    destruct Hy as [->|Hy].
    - rewrite filter_all.
      + rewrite filter_none; [now rewrite app_nil_r|].
        intros x Hx. apply in_flat_map in Hx as (y' & Hy' & Hx).
        destruct (Hkey _ _ _ Hx) as [_ Hyr]. subst p. simpl. rewrite Hyr. simpl.
        destruct (y' =? y) eqn:E; [apply Z.eqb_eq in E; subst; contradiction|].
        apply andb_false_r.
      + intros x Hx. destruct (Hkey _ _ _ Hx) as [Hq Hyr]. subst p. simpl.
        rewrite Hq, Hyr. simpl. now rewrite !Z.eqb_refl.
    - rewrite filter_none.
      + simpl. now apply IH.
      + intros x Hx. destruct (Hkey _ _ _ Hx) as [_ Hyr]. subst p. simpl.
        rewrite Hyr. simpl.
        destruct (y0 =? y) eqn:E; [apply Z.eqb_eq in E; subst; contradiction|].
        apply andb_false_r. }
  clear Hy Hys. induction items as [|a0 items IH]; [contradiction|].
  simpl in Hitems. apply NoDup_cons_iff in Hitems as [Hnin Hitems].
  simpl. rewrite filter_app. destruct Ha as [->|Ha].
  - rewrite Hsame, filter_flat_map, flat_map_nil; [now rewrite app_nil_r|].
    intros a' Ha'. apply Hother. intros E. apply Hnin. rewrite <- E.
    now apply in_map.
  - rewrite Hother, IH by (try assumption; intros E; apply Hnin; rewrite E;
                            now apply in_map).
    reflexivity.
Qed.

Lemma fixed_grid_points tk nm current_year years v label :
  fixed_grid tk nm current_year years v label
  = flat_map (fun q =>
                flat_map (fun y =>
                            [forecast_row tk nm (anniversary y q) v
                               (Period_quarter q y) y (Some q) label])
                  (future_years current_year years))
      [1; 2; 3; 4].
Proof.
  unfold fixed_grid. apply flat_map_ext. intros q.
  symmetry. now apply flat_map_singleton.
Qed.

Lemma records_for_fixed_grid tk nm current_year years v label q y :
  In q [1; 2; 3; 4] -> In y (future_years current_year years) ->
  records_for (Some q) y (fixed_grid tk nm current_year years v label)
  = [forecast_row tk nm (anniversary y q) v (Period_quarter q y) y
       (Some q) label].
Proof.
  intros Hq Hy. rewrite fixed_grid_points.
  apply (records_for_points
           (fun q y => [forecast_row tk nm (anniversary y q) v
                          (Period_quarter q y) y (Some q) label])
           (fun q => q)); try assumption.
  - intros a' y' x [<-|[]]. split; reflexivity.
  - simpl. repeat constructor; simpl; intuition lia.
  - apply NoDup_range.
Qed.

Lemma in_fixed_grid tk nm current_year years v label x :
  In x (fixed_grid tk nm current_year years v label) ->
  exists q y, In q [1; 2; 3; 4] /\ In y (future_years current_year years)
              /\ x = forecast_row tk nm (anniversary y q) v
                       (Period_quarter q y) y (Some q) label.
Proof.
  unfold fixed_grid. intros H. apply in_flat_map in H as (q & Hq & H).
  apply in_map_iff in H as (y & <- & Hy). eauto.
Qed.

(** ** The activity gate *)

Lemma Qgtb_false_nonneg v : Qgtb v 0 = false -> (0 <= v)%Q -> (v == 0)%Q.
Proof.
  unfold Qgtb. intros H Hv. apply negb_false_iff, Qle_bool_iff in H.
  now apply Qle_antisym.
Qed.

Lemma counts_recent_in_window cy w r :
  counts_recent (cy - w) r = in_window cy w r && Qgtb (dividend_value r) 0.
Proof.
  unfold counts_recent, in_window, is_payment, is_actual, has_year.
  destruct (year r); destruct (forecast_type r =? 0);
    destruct (Qgtb (dividend_value r) 0); simpl;
    rewrite ?andb_true_r, ?andb_false_r; reflexivity.
Qed.

Lemma recent_sums_agree cy w group :
  (forall r, In r group -> (0 <= dividend_value r)%Q) ->
  (recent_payments_sum (analyse (cy - w) group)
   == recent_actual_sum cy w group)%Q.
Proof.
  intros Hnn. rewrite recent_payments_sum_analyse.
  unfold recent_actual_sum, qsum.
  assert (Hacc : forall a a', (a == a')%Q ->
            (fold_left (fun acc r => if counts_recent (cy - w) r
                                     then (acc + dividend_value r)%Q else acc)
               group a
             == fold_left Qplus
                  (map dividend_value (filter (in_window cy w) group)) a')%Q).
  { induction group as [|r group IH]; intros a a' Ha; simpl; [exact Ha|].
    assert (Hr : (0 <= dividend_value r)%Q) by (apply Hnn; now left).
    assert (Hg : forall x, In x group -> (0 <= dividend_value x)%Q)
      by (intros x Hx; apply Hnn; now right).
    rewrite counts_recent_in_window.
    destruct (in_window cy w r); simpl.
    - destruct (Qgtb (dividend_value r) 0) eqn:E.
      + apply IH; [exact Hg|]. now rewrite Ha.
      + apply IH; [exact Hg|].
        rewrite (Qgtb_false_nonneg _ E Hr), Ha. ring.
    - now apply IH. }
  apply Hacc. reflexivity.
Qed.

Lemma gate_closed cy w group :
  (forall r, In r group -> (0 <= dividend_value r)%Q) ->
  (recent_actual_sum cy w group == 0)%Q ->
  passes_gate cy w group = false.
Proof.
  intros Hnn Hsum. unfold passes_gate. apply negb_false_iff, Qeq_bool_iff.
  now rewrite recent_sums_agree.
Qed.

Lemma forecast_ticker_inactive now set_iter years window tk group s :
  passes_gate (dt_year now) window group = false ->
  forecast_ticker now set_iter years window tk group s
  = (Ret tt,
     mk_locals
       (forecast_data s
        ++ grid_rows (dt_year now) years tk group 0%Q Inactive_company)
       (len (grid_rows (dt_year now) years tk group 0%Q Inactive_company))).
Proof.
  unfold passes_gate. intros Hgate. apply negb_false_iff in Hgate.
  unfold forecast_ticker. rewrite Hgate.
  unfold bind at 1, reset_count at 1. now rewrite inactive_company_run.
Qed.

(** ** The inactive branch *)

(** C1.  When the amounts of the ACTUAL rows of the recent-activity window
    add up to zero, the engine emits, for every future year of the horizon,
    one row per quarter, dated Mar 15, Jun 15, Sep 15 and Dec 15 of that
    year, with amount 0 and the label of the inactive branch, and nothing
    else: no row of any other strategy. *)
Theorem inactive_company_forecast
    (now : datetime) (set_iter : list Z -> list Z) (years window : Z)
    (tk : string) (r : Row) (group : list Row) :
  valid now = true ->
  dt_year now + years <= MAXYEAR ->
  (forall x, In x (r :: group) -> (0 <= dividend_value x)%Q) ->
  (recent_actual_sum (dt_year now) window (r :: group) == 0)%Q ->
  let out := emitted now set_iter years window tk (r :: group) in
  out = fixed_grid tk (name r) (dt_year now) years 0%Q Inactive_company
  /\ (forall x, In x out ->
        dividend_value x = 0%Q
        /\ forecast_strategy x = Some Inactive_company)
  /\ (forall q y, In q [1; 2; 3; 4] ->
        dt_year now + 1 <= y <= dt_year now + years ->
        records_for (Some q) y out
        = [forecast_row tk (name r) (anniversary y q) 0%Q
             (Period_quarter q y) y (Some q) Inactive_company])
  /\ len out = 4 * Z.max 0 years.
Proof.
  intros Hnow Hmax Hnn Hsum out.
  assert (Hout : out = fixed_grid tk (name r) (dt_year now) years 0%Q
                         Inactive_company).
  { subst out. unfold emitted.
    rewrite forecast_ticker_inactive by now apply gate_closed.
    simpl. apply grid_rows_fixed.
    intros y Hy. eapply future_years_in_calendar; eauto. }
  split; [exact Hout|]. rewrite Hout. split; [|split].
  - intros x Hx. apply in_fixed_grid in Hx as (q & y & _ & _ & ->).
    split; reflexivity.
  - intros q y Hq Hy. apply records_for_fixed_grid; [exact Hq|].
    now apply in_future_years.
  - unfold fixed_grid, len. simpl.
    rewrite !length_app, !length_map. simpl. unfold future_years.
    rewrite length_range. lia.
Qed.

Lemma inactive_company_forecast_witness :
  valid sample_now = true
  /\ (recent_actual_sum 2024 3 dormant_group == 0)%Q
  /\ emitted sample_now first_occurrences 2 3 "OLD" dormant_group
     = fixed_grid "OLD" "Sample" 2024 2 0%Q Inactive_company.
Proof.
  split; [reflexivity|]. split; [reflexivity|].
  apply (inactive_company_forecast sample_now first_occurrences 2 3 "OLD"
           (sample_row "OLD" (Some (mk_datetime 2019 5 20)) 5 0 2019 (Some 2))
           []).
  - reflexivity.
  - unfold MAXYEAR; simpl; lia.
  - intros x [<-|[]]. simpl. discriminate.
  - reflexivity.
Defined.

(** ** Dates the strategies synthesize *)

Lemma make_forecast_date_total y m d :
  MINYEAR <= y <= MAXYEAR -> 1 <= m <= 12 -> 1 <= d <= 31 ->
  exists dt, make_forecast_date y m d = Ret dt.
Proof.
  intros Hy Hm Hd. unfold make_forecast_date.
  destruct (valid_date y m d) eqn:Hv.
  - rewrite (datetime_valid _ _ _ Hv). eauto.
  - rewrite (datetime_invalid _ _ _ Hv).
    assert (Hdim : days_in_month y m < d).
    { destruct (Z.ltb_spec (days_in_month y m) d) as [H|H]; [exact H|].
      assert (valid_date y m d = true) by (apply valid_date_iff; lia).
      congruence. }
    unfold days_in_month in Hdim.
    destruct (m =? 2) eqn:E2.
    + assert (H28 : (28 <? d) = true) by (destruct (is_leap y); lia).
      rewrite H28. simpl.
      destruct (is_leap y) eqn:El; eexists; apply datetime_valid, valid_date_iff;
        unfold days_in_month; rewrite El; simpl; lia.
    + cbn [andb]. destruct (in_list m [4; 6; 9; 11]) eqn:E30; [|lia].
      assert (H30 : (30 <? d) = true) by lia. rewrite H30. cbn [andb].
      eexists. apply datetime_valid, valid_date_iff.
      unfold days_in_month. rewrite E2, E30. lia.
Qed.

Lemma zsum_bounds lo hi (l : list Z) :
  (forall x, In x l -> lo <= x <= hi) ->
  lo * len l <= zsum l <= hi * len l.
Proof.
  intros H. unfold zsum, len.
  assert (Hacc : forall a, fold_left Z.add l a - a >= lo * Z.of_nat (length l)
                           /\ fold_left Z.add l a - a <= hi * Z.of_nat (length l)).
  { induction l as [|x l IH]; intros a; simpl; [lia|].
    assert (Hx : lo <= x <= hi) by (apply H; now left).
    destruct (IH (fun y Hy => H y (or_intror Hy)) (a + x)). lia. }
  destruct (Hacc 0). lia.
Qed.

Lemma int_mean_bounds lo hi (l : list Z) :
  l <> [] -> (forall x, In x l -> lo <= x <= hi) ->
  exists d, int_mean l = Ret d /\ lo <= d <= hi.
Proof.
  intros Hne H. rewrite int_mean_nonempty by assumption.
  eexists; split; [reflexivity|].
  pose proof (zsum_bounds lo hi l H) as Hs.
  assert (Hlen : 0 < len l) by (unfold len; destruct l; [congruence | simpl; lia]).
  split.
  - apply Z.div_le_lower_bound; lia.
  - apply Z.div_le_upper_bound; lia.
Qed.

Lemma valid_month_day d :
  valid d = true -> 1 <= dt_month d <= 12 /\ 1 <= dt_day d <= 31.
Proof.
  unfold valid. intros H. apply valid_date_iff in H.
  pose proof (days_in_month_bounds (dt_year d) (dt_month d)). lia.
Qed.

Lemma in_omap_list {A B} (f : A -> option B) (l : list A) (y : B) :
  In y (omap f l) <-> exists x, In x l /\ f x = Some y.
Proof.
  induction l as [|a l IH]; simpl.
  - split; [intros [] | intros (x & [] & _)].
  - destruct (f a) as [b|] eqn:E; simpl; rewrite IH; split.
    + intros [<-|(x & Hx & Hf)]; [exists a; auto | exists x; auto].
    + intros (x & [<-|Hx] & Hf); [left; congruence | right; eauto].
    + intros (x & Hx & Hf). eauto.
    + intros (x & [<-|Hx] & Hf); [congruence | eauto].
Qed.

Lemma flat_map_ext_in {A B} (f g : A -> list B) l :
  (forall x, In x l -> f x = g x) -> flat_map f l = flat_map g l.
Proof.
  induction l as [|x l IH]; intros H; simpl; [reflexivity|].
  rewrite H by now left. f_equal. apply IH. intros y Hy. apply H. now right.
Qed.

Lemma first_occurrences_spec l x : In x (first_occurrences l) <-> In x l.
Proof. unfold first_occurrences. apply nodup_In. Qed.

(** ** Strategy 3.1: shape of the output *)


Lemma quarterly_point_computed tk r group h q avg m d y dt :
  site_override (site_forecasts h !! (y, q)) = None ->
  make_forecast_date y m d = Ret dt ->
  quarterly_point tk (r :: group) h q avg m d y
  = [forecast_row tk (name r) dt (round2 avg) (Period_quarter q y) y (Some q)
       Quarterly_data].
Proof. intros H Hd. unfold quarterly_point. now rewrite H, Hd. Qed.

Lemma quarterly_point_key tk group h q avg m d y x :
  In x (quarterly_point tk group h q avg m d y) ->
  quarter x = Some q /\ year x = Some y
  /\ forecast_strategy x = Some Quarterly_data /\ forecast_type x = 2.
Proof.
  unfold quarterly_point.
  destruct (match site_override (site_forecasts h !! (y, q)) with
            | Some dv => Ret dv
            | None => obind (make_forecast_date y m d)
                        (fun fd => Ret (fd, round2 avg))
            end) as [dv|e]; [|intros []].
  destruct (group_name group); [|intros []].
  intros [<-|[]]. repeat split.
Qed.

Section Quarterly.

Variable now : datetime.
Variable set_iter : list Z -> list Z.
Hypothesis set_iter_spec : forall l x, In x (set_iter l) <-> In x l.
Hypothesis now_valid : valid now = true.

Lemma typical_month_range history :
  dates_valid history ->
  exists m, typical_month now set_iter history = Ret m /\ 1 <= m <= 12.
Proof using set_iter_spec now_valid.
  intros Hv. destruct (typical_month_ret now set_iter set_iter_spec history)
    as (m & Hm & Hin).
  exists m. split; [exact Hm|]. destruct Hin as [->|Hin].
  - now apply valid_month_day.
  - apply in_omap_list in Hin as (x & Hx & Hmx). unfold month in Hmx.
    destruct (record_date x) as [d|] eqn:Ed; [|discriminate].
    injection Hmx as <-. apply valid_month_day. eapply Hv; eauto.
Qed.

Lemma typical_day_range m history :
  dates_valid history ->
  exists d, typical_day m history = Ret d /\ 1 <= d <= 31.
Proof.
  intros Hv. unfold typical_day.
  match goal with |- context [omap ?f history] =>
    set (days := omap f history);
    assert (Hdays : forall x, In x days -> 1 <= x <= 31)
  end.
  { intros x Hx. apply in_omap_list in Hx as (row & Hrow & Hf).
    destruct (record_date row) as [d|] eqn:Ed; [|discriminate].
    destruct (dt_month d =? m); [|discriminate].
    injection Hf as <-. apply valid_month_day. eapply Hv; eauto. }
  clearbody days. destruct days as [|d0 rest].
  - exists 15. split; [reflexivity | lia].
  - apply int_mean_bounds; [discriminate | exact Hdays].
Qed.

Lemma quarterly_item_rows_points cy years tk group h q history :
  history <> [] ->
  quarterly_item_rows now set_iter cy years tk group h (q, history)
  = flat_map (quarterly_point_of now set_iter tk group h (q, history))
      (future_years cy years).
Proof using set_iter_spec.
  intros Hne. unfold quarterly_item_rows, quarterly_point_of,
    quarter_average, quarter_month, quarter_day. simpl.
  destruct history as [|x history]; [congruence|].
  set (hist := x :: history).
  rewrite (mean_nonempty (map dividend_value hist))
    by (subst hist; simpl; congruence).
  destruct (typical_month_ret now set_iter set_iter_spec hist) as (m & Hm & _).
  rewrite Hm.
  destruct (typical_day_ret m hist) as (d & Hd). simpl. rewrite Hd.
  unfold quarter_month. rewrite Hm. simpl. rewrite Hd.
  reflexivity.
Qed.

Lemma quarterly_rows_points ray cy years tk group :
  quarterly_rows now set_iter cy years tk group (analyse ray group)
  = flat_map (fun item =>
                flat_map (quarterly_point_of now set_iter tk group
                            (analyse ray group) item)
                  (future_years cy years))
      (ticker_quarters (analyse ray group)).
Proof using set_iter_spec.
  unfold quarterly_rows. apply flat_map_ext_in. intros [q history] Hin.
  apply quarterly_item_rows_points.
  rewrite ticker_quarters_analyse in Hin.
  eapply dict_of_entry; [apply Z.eqb_eq | exact Hin].
Qed.

Lemma records_for_quarterly ray cy years tk group q history y :
  In (q, history) (ticker_quarters (analyse ray group)) ->
  In y (future_years cy years) ->
  records_for (Some q) y
    (quarterly_rows now set_iter cy years tk group (analyse ray group))
  = quarterly_point_of now set_iter tk group (analyse ray group) (q, history) y.
Proof using set_iter_spec.
  intros Hin Hy. rewrite quarterly_rows_points.
  apply (records_for_points
           (quarterly_point_of now set_iter tk group (analyse ray group))
           fst _ _ (q, history) y); try assumption.
  - intros a' y' x Hx. unfold quarterly_point_of in Hx.
    apply quarterly_point_key in Hx. tauto.
  - rewrite ticker_quarters_analyse. apply dict_of_NoDup, Z.eqb_eq.
  - apply NoDup_range.
Qed.


End Quarterly.

(** ** Which strategy the chain selects *)


Lemma has_quarterly_data_single h :
  len (all_payments h) <= 1 -> has_quarterly_data h = false.
Proof.
  intros H. unfold has_quarterly_data.
  destruct (len (all_payments h) <=? 1) eqn:E; [reflexivity | lia].
Qed.

Lemma chain_rows_quarterly now set_iter cy years tk group h :
  has_quarterly_data h = true ->
  quarterly_rows now set_iter cy years tk group h <> [] ->
  chain_rows now set_iter cy years tk group h
  = quarterly_rows now set_iter cy years tk group h.
Proof.
  intros Hq Hne. unfold chain_rows. rewrite Hq.
  destruct (quarterly_rows now set_iter cy years tk group h); [congruence|].
  reflexivity.
Qed.

Lemma ticker_rows_gate_open now set_iter years window tk group :
  passes_gate (dt_year now) window group = true ->
  ticker_rows now set_iter years window tk group
  = chain_rows now set_iter (dt_year now) years tk group
      (analyse (dt_year now - window) group).
Proof.
  unfold passes_gate, ticker_rows. intros H. apply negb_true_iff in H.
  now rewrite H.
Qed.

Lemma records_for_nonempty q y rows :
  records_for q y rows <> [] -> rows <> [].
Proof. intros H ->. now apply H. Qed.

Lemma in_ticker_quarters ray group x q :
  In x group -> is_actual x = true -> quarter x = Some q ->
  In (q, quarter_history group q) (ticker_quarters (analyse ray group)).
Proof.
  intros Hin Ha Hq. rewrite ticker_quarters_analyse.
  eapply dict_of_has_entry; [apply Z.eqb_eq | exact Hin |].
  unfold quarter_key. now rewrite Ha.
Qed.


Lemma emitted_quarterly now set_iter years window tk group :
  (forall l x, In x (set_iter l) <-> In x l) ->
  passes_gate (dt_year now) window group = true ->
  has_quarterly_data (analyse (dt_year now - window) group) = true ->
  quarterly_rows now set_iter (dt_year now) years tk group
    (analyse (dt_year now - window) group) <> [] ->
  emitted now set_iter years window tk group
  = quarterly_rows now set_iter (dt_year now) years tk group
      (analyse (dt_year now - window) group).
Proof.
  intros Hset Hgate Hq Hne.
  rewrite emitted_rows by exact Hset.
  rewrite ticker_rows_gate_open by exact Hgate.
  now apply chain_rows_quarterly.
Qed.

(** ** Strategy 3.1 *)






(** ** Rows of the later strategies *)

Lemma in_grid_rows cy years tk group v label x :
  In x (grid_rows cy years tk group v label) ->
  exists nm dt q y,
    In y (future_years cy years)
    /\ x = forecast_row tk nm dt v (Period_quarter q y) y (Some q) label.
Proof.
  unfold grid_rows. intros H.
  apply in_flat_map in H as ([q [m d]] & _ & H).
  apply in_flat_map in H as (y & Hy & H). unfold grid_point in H.
  destruct (make_forecast_date y m d) as [dt|]; [|contradiction].
  destruct (group_name group) as [nm|]; [|contradiction].
  destruct H as [<-|[]]. exists nm, dt, q, y. split; [exact Hy | reflexivity].
Qed.

Lemma in_payment_rows set_iter cy years tk group h x :
  In x (payment_rows set_iter cy years tk group h) ->
  exists nm dt v q y,
    In y (future_years cy years)
    /\ x = forecast_row tk nm dt v (Period_quarter q y) y (Some q) Payment_dates.
Proof.
  unfold payment_rows. intros H.
  apply in_flat_map in H as ([[m d] payments] & _ & H).
  unfold payment_item_rows in H.
  destruct (mean (map dividend_value payments)) as [avg|]; [|contradiction].
  destruct (group_quarter set_iter m payments) as [q|]; [|contradiction].
  apply in_flat_map in H as (y & Hy & H). unfold payment_point in H.
  destruct (make_forecast_date y m d) as [dt|]; [|contradiction].
  destruct (group_name group) as [nm|]; [|contradiction].
  destruct H as [<-|[]]. exists nm, dt, (round2 avg), q, y.
  split; [exact Hy | reflexivity].
Qed.

Lemma in_quarterly_rows now set_iter cy years tk group h x :
  In x (quarterly_rows now set_iter cy years tk group h) ->
  exists nm dt v q y,
    In y (future_years cy years)
    /\ x = forecast_row tk nm dt v (Period_quarter q y) y (Some q) Quarterly_data.
Proof.
  unfold quarterly_rows. intros H.
  apply in_flat_map in H as ([q history] & _ & H).
  unfold quarterly_item_rows in H.
  destruct history as [|r0 history]; [contradiction|].
  destruct (mean (map dividend_value (r0 :: history))) as [avg|]; [|contradiction].
  destruct (typical_month now set_iter (r0 :: history)) as [m|]; [|contradiction].
  destruct (typical_day m (r0 :: history)) as [d|]; [|contradiction].
  apply in_flat_map in H as (y & Hy & H). unfold quarterly_point in H.
  destruct (match site_override (site_forecasts h !! (y, q)) with
            | Some dv => Ret dv
            | None => obind (make_forecast_date y m d)
                        (fun fd => Ret (fd, round2 avg))
            end) as [dv|]; [|contradiction].
  destruct (group_name group) as [nm|]; [|contradiction].
  destruct H as [<-|[]]. exists nm, (fst dv), (snd dv), q, y.
  split; [exact Hy | reflexivity].
Qed.

Lemma in_annual_rows cy years tk group h x :
  In x (annual_rows cy years tk group h) ->
  exists nm dt v q y,
    In y (future_years cy years)
    /\ x = forecast_row tk nm dt v (Period_quarter q y) y (Some q) Annual_data.
Proof.
  unfold annual_rows.
  destruct (mean (map dividend_value (all_payments h))) as [avg|]; [|contradiction].
  intros H. apply in_grid_rows in H as (nm & dt & q & y & Hy & ->).
  exists nm, dt, (round2 (avg / 4)), q, y. split; [exact Hy | reflexivity].
Qed.

(** Every emitted row is a new forecast row of the security, for a future
    year, labelled by one of the strategies. *)
Lemma in_ticker_rows now set_iter years window tk group x :
  In x (ticker_rows now set_iter years window tk group) ->
  exists nm dt v q y label,
    In y (future_years (dt_year now) years)
    /\ x = forecast_row tk nm dt v (Period_quarter q y) y (Some q) label
    /\ In label [Quarterly_data; Payment_dates; Annual_data; Emergency;
                 Inactive_company].
Proof.
  unfold ticker_rows, chain_rows.
  set (cy := dt_year now). set (h := analyse (cy - window) group).
  destruct (Qeq_bool (recent_payments_sum h) 0).
  { intros H. apply in_grid_rows in H as (nm & dt & q & y & Hy & ->).
    exists nm, dt, 0%Q, q, y, Inactive_company. simpl. tauto. }
  set (r1 := if has_quarterly_data h
             then quarterly_rows now set_iter cy years tk group h else []).
  set (r2 := if is_empty r1 && negb (is_empty (annual_payment_dates h))
             then payment_rows set_iter cy years tk group h else r1).
  set (r3 := if is_empty r2 && (len (all_payments h) >? 0)
             then annual_rows cy years tk group h else r2).
  assert (H1 : forall x, In x r1 ->
            exists nm dt v q y label,
              In y (future_years cy years)
              /\ x = forecast_row tk nm dt v (Period_quarter q y) y (Some q) label
              /\ In label [Quarterly_data; Payment_dates; Annual_data;
                           Emergency; Inactive_company]).
  { subst r1. intros z Hz. destruct (has_quarterly_data h); [|contradiction].
    apply in_quarterly_rows in Hz as (nm & dt & v & q & y & Hy & ->).
    exists nm, dt, v, q, y, Quarterly_data. simpl. tauto. }
  assert (H2 : forall x, In x r2 ->
            exists nm dt v q y label,
              In y (future_years cy years)
              /\ x = forecast_row tk nm dt v (Period_quarter q y) y (Some q) label
              /\ In label [Quarterly_data; Payment_dates; Annual_data;
                           Emergency; Inactive_company]).
  { subst r2. intros z Hz.
    destruct (is_empty r1 && negb (is_empty (annual_payment_dates h)));
      [|now apply H1].
    apply in_payment_rows in Hz as (nm & dt & v & q & y & Hy & ->).
    exists nm, dt, v, q, y, Payment_dates. simpl. tauto. }
  assert (H3 : forall x, In x r3 ->
            exists nm dt v q y label,
              In y (future_years cy years)
              /\ x = forecast_row tk nm dt v (Period_quarter q y) y (Some q) label
              /\ In label [Quarterly_data; Payment_dates; Annual_data;
                           Emergency; Inactive_company]).
  { subst r3. intros z Hz.
    destruct (is_empty r2 && (len (all_payments h) >? 0)); [|now apply H2].
    apply in_annual_rows in Hz as (nm & dt & v & q & y & Hy & ->).
    exists nm, dt, v, q, y, Annual_data. simpl. tauto. }
  destruct (is_empty r3); [|now apply H3].
  intros H. apply in_grid_rows in H as (nm & dt & q & y & Hy & ->).
  exists nm, dt, 0%Q, q, y, Emergency. simpl. tauto.
Qed.

Lemma grid_rows_nonempty now years tk r group v label :
  valid now = true -> 1 <= years -> dt_year now < MAXYEAR ->
  grid_rows (dt_year now) years tk (r :: group) v label <> [].
Proof.
  intros Hnow Hy Hmax Hnil.
  apply valid_date_iff in Hnow. unfold MINYEAR, MAXYEAR in *.
  assert (Hin : In (forecast_row tk (name r)
                      (mk_datetime (dt_year now + 1) 3 15) v
                      (Period_quarter 1 (dt_year now + 1)) (dt_year now + 1)
                      (Some 1) label)
                  (grid_rows (dt_year now) years tk (r :: group) v label)).
  { unfold grid_rows. apply in_flat_map. exists (1, (3, 15)).
    split; [now left|].
    apply in_flat_map. exists (dt_year now + 1). split.
    - apply in_future_years. lia.
    - unfold grid_point. rewrite make_forecast_date_valid; [now left|].
      apply valid_date_iff. unfold days_in_month, MINYEAR, MAXYEAR. simpl. lia. }
  rewrite Hnil in Hin. contradiction.
Qed.

Lemma chain_rows_nonempty now set_iter years tk r group h :
  valid now = true -> 1 <= years -> dt_year now < MAXYEAR ->
  chain_rows now set_iter (dt_year now) years tk (r :: group) h <> [].
Proof.
  intros Hnow Hy Hmax. unfold chain_rows.
  match goal with |- (if is_empty ?r3 then _ else _) <> [] =>
    destruct r3 eqn:E end; simpl.
  - now apply grid_rows_nonempty.
  - discriminate.
Qed.


(** C2.  A security that passes the activity gate with at most one payment
    in total gets no row of the quarterly-history strategy, whatever the
    number of observations a quarter holds; its rows come from a later
    strategy of the chain, and there are such rows whenever the horizon is at
    least one year and next year is inside the calendar. *)
Theorem single_payment_skips_quarterly
    (now : datetime) (set_iter : list Z -> list Z) (years window : Z)
    (tk : string) (r : Row) (group : list Row) :
  (forall l z, In z (set_iter l) <-> In z l) ->
  passes_gate (dt_year now) window (r :: group) = true ->
  (length (filter is_payment (r :: group)) <= 1)%nat ->
  let out := emitted now set_iter years window tk (r :: group) in
  (forall x, In x out -> forecast_strategy x <> Some Quarterly_data)
  /\ (forall x, In x out ->
        forecast_strategy x = Some Payment_dates
        \/ forecast_strategy x = Some Annual_data
        \/ forecast_strategy x = Some Emergency)
  /\ (valid now = true -> 1 <= years -> dt_year now < MAXYEAR -> out <> []).
Proof.
  intros Hset Hgate Hone out.
  set (h := analyse (dt_year now - window) (r :: group)).
  assert (Hq : has_quarterly_data h = false).
  { apply has_quarterly_data_single. subst h. rewrite all_payments_analyse.
    unfold len. lia. }
  assert (Hout : out = chain_rows now set_iter (dt_year now) years tk
                         (r :: group) h).
  { subst out. rewrite emitted_rows by exact Hset.
    now apply ticker_rows_gate_open. }
  assert (Hlabels : forall x, In x out ->
            forecast_strategy x = Some Payment_dates
            \/ forecast_strategy x = Some Annual_data
            \/ forecast_strategy x = Some Emergency).
  { rewrite Hout. unfold chain_rows. rewrite Hq. simpl.
    set (r2 := if negb (is_empty (annual_payment_dates h))
               then payment_rows set_iter (dt_year now) years tk (r :: group) h
               else []).
    assert (H2 : forall x, In x r2 -> forecast_strategy x = Some Payment_dates).
    { subst r2. intros x Hx.
      destruct (negb (is_empty (annual_payment_dates h))); [|contradiction].
      apply in_payment_rows in Hx as (nm & dt & v & q & y & _ & ->).
      reflexivity. }
    set (r3 := if is_empty r2 && (len (all_payments h) >? 0)
               then annual_rows (dt_year now) years tk (r :: group) h else r2).
    assert (H3 : forall x, In x r3 ->
              forecast_strategy x = Some Payment_dates
              \/ forecast_strategy x = Some Annual_data).
    { subst r3. intros x Hx.
      destruct (is_empty r2 && (len (all_payments h) >? 0)).
      - apply in_annual_rows in Hx as (nm & dt & v & q & y & _ & ->).
        now right.
      - left. now apply H2. }
    intros x Hx. destruct (is_empty r3).
    - apply in_grid_rows in Hx as (nm & dt & q & y & _ & ->). now right; right.
    - destruct (H3 x Hx); tauto. }
  split; [|split].
  - intros x Hx. destruct (Hlabels x Hx) as [E|[E|E]]; rewrite E; discriminate.
  - exact Hlabels.
  - intros Hnow Hy Hmax. rewrite Hout. now apply chain_rows_nonempty.
Qed.

Lemma single_payment_skips_quarterly_witness :
  (exists history,
     In (1, history)
       (ticker_quarters (analyse (2024 - 3) single_payment_group))
     /\ length history = 2%nat)
  /\ length (filter is_payment single_payment_group) = 1%nat
  /\ forall x,
       In x (emitted sample_now first_occurrences 2 3 "ONE" single_payment_group) ->
       forecast_strategy x <> Some Quarterly_data.
Proof.
  split; [eexists; split; [left; reflexivity | reflexivity]|].
  split; [reflexivity|].
  apply (single_payment_skips_quarterly sample_now first_occurrences 2 3 "ONE"
           (sample_row "ONE" (Some (mk_datetime 2023 3 10)) 5 0 2023 (Some 1))
           [sample_row "ONE" None 0 0 2024 (Some 1)]).
  - apply first_occurrences_spec.
  - reflexivity.
  - simpl. lia.
Defined.

(** ** The end-to-end example *)

Lemma quarterly_point_of_computed now set_iter ray tk r group q history y :
  (forall l z, In z (set_iter l) <-> In z l) ->
  valid now = true ->
  dates_valid (r :: group) ->
  MINYEAR <= y <= MAXYEAR ->
  In (q, history) (ticker_quarters (analyse ray (r :: group))) ->
  site_override (site_record (r :: group) y q) = None ->
  exists dt,
    quarterly_point_of now set_iter tk (r :: group)
      (analyse ray (r :: group)) (q, history) y
    = [forecast_row tk (name r) dt (round2 (quarter_average history))
         (Period_quarter q y) y (Some q) Quarterly_data].
Proof.
  intros Hset Hnow Hv Hy Hin Hsite. unfold quarterly_point_of. simpl.
  rewrite ticker_quarters_analyse in Hin.
  apply dict_of_entry in Hin as [Hhist _]; [|apply Z.eqb_eq].
  assert (Hvh : dates_valid history).
  { intros x d Hx. apply Hv. subst history. apply filter_In in Hx. tauto. }
  rewrite <- (site_forecasts_analyse ray) in Hsite.
  unfold quarter_day, quarter_month.
  destruct (typical_month_range now set_iter Hset Hnow history Hvh)
    as (m & Hm & Hmr).
  rewrite Hm. simpl.
  destruct (typical_day_range m history Hvh) as (d & Hd & Hdr).
  rewrite Hd. simpl.
  destruct (make_forecast_date_total y m d Hy Hmr Hdr) as (dt & Hdt).
  exists dt. now apply quarterly_point_computed.
Qed.

(** C5.  For ticker "ABC" with the ACTUAL rows Q1 2022: 5, Q1 2023: 7 and
    Q1 2024: 6, a horizon of 2 years, an activity window of 3 years and the
    current year 2024, the engine emits exactly two rows: quarter 1 of 2025
    and quarter 1 of 2026, each with the amount round((5+7+6)/3, 2), which is
    6, and the label of the quarterly-history strategy. *)
Theorem end_to_end_quarterly_average
    (now : datetime) (set_iter : list Z -> list Z)
    (n1 n2 n3 : string) (d1 d2 d3 : option datetime)
    (p1 p2 p3 : period_label) :
  (forall l z, In z (set_iter l) <-> In z l) ->
  valid now = true ->
  dt_year now = 2024 ->
  dates_valid (abc_group n1 n2 n3 d1 d2 d3 p1 p2 p3) ->
  (round2 ((5 + 7 + 6) / 3) == 6)%Q
  /\ exists date1 date2,
       emitted now set_iter 2 3 "ABC" (abc_group n1 n2 n3 d1 d2 d3 p1 p2 p3)
       = [forecast_row "ABC" n1 date1 (round2 ((5 + 7 + 6) / 3))
            (Period_quarter 1 2025) 2025 (Some 1) Quarterly_data;
          forecast_row "ABC" n1 date2 (round2 ((5 + 7 + 6) / 3))
            (Period_quarter 1 2026) 2026 (Some 1) Quarterly_data].
Proof.
  intros Hset Hnow Hyear Hv. split; [reflexivity|].
  set (g := abc_group n1 n2 n3 d1 d2 d3 p1 p2 p3) in *.
  assert (Htq : ticker_quarters (analyse (2024 - 3) g) = [(1, g)])
    by reflexivity.
  assert (Hin : In (1, g) (ticker_quarters (analyse (2024 - 3) g)))
    by (rewrite Htq; now left).
  assert (Hp : forall y, 2025 <= y <= 2026 ->
            exists dt,
              quarterly_point_of now set_iter "ABC" g
                (analyse (2024 - 3) g) (1, g) y
              = [forecast_row "ABC" n1 dt (round2 ((5 + 7 + 6) / 3))
                   (Period_quarter 1 y) y (Some 1) Quarterly_data]).
  { intros y Hy.
    apply (quarterly_point_of_computed now set_iter (2024 - 3) "ABC"
             (abc_row n1 d1 p1 5 2022)
             [abc_row n2 d2 p2 7 2023; abc_row n3 d3 p3 6 2024] 1 g y);
      try assumption.
    - unfold MINYEAR, MAXYEAR. lia.
    - reflexivity. }
  destruct (Hp 2025 ltac:(lia)) as (date1 & H1).
  destruct (Hp 2026 ltac:(lia)) as (date2 & H2).
  exists date1, date2.
  assert (Hrows : quarterly_rows now set_iter 2024 2 "ABC" g
                    (analyse (2024 - 3) g)
                  = [forecast_row "ABC" n1 date1 (round2 ((5 + 7 + 6) / 3))
                       (Period_quarter 1 2025) 2025 (Some 1) Quarterly_data;
                     forecast_row "ABC" n1 date2 (round2 ((5 + 7 + 6) / 3))
                       (Period_quarter 1 2026) 2026 (Some 1) Quarterly_data]).
  { rewrite (quarterly_rows_points now set_iter Hset), Htq.
    change (future_years 2024 2) with [2025; 2026]. simpl.
    now rewrite H1, H2. }
  rewrite emitted_quarterly; rewrite ?Hyear; try assumption; try reflexivity.
  rewrite Hrows. discriminate.
Qed.

Lemma end_to_end_quarterly_average_witness :
  exists date1 date2,
    emitted sample_now first_occurrences 2 3 "ABC"
      (abc_group "Abc" "Abc" "Abc"
         (Some (mk_datetime 2022 3 10)) (Some (mk_datetime 2023 3 12)) None
         (Period_quarter 1 2022) (Period_quarter 1 2023) (Period_quarter 1 2024))
    = [forecast_row "ABC" "Abc" date1 (round2 ((5 + 7 + 6) / 3))
         (Period_quarter 1 2025) 2025 (Some 1) Quarterly_data;
       forecast_row "ABC" "Abc" date2 (round2 ((5 + 7 + 6) / 3))
         (Period_quarter 1 2026) 2026 (Some 1) Quarterly_data].
Proof.
  apply (end_to_end_quarterly_average sample_now first_occurrences).
  - apply first_occurrences_spec.
  - reflexivity.
  - reflexivity.
  - intros z d [<-|[<-|[<-|[]]]] [= <-]; reflexivity.
Defined.

(** ** One row per quarter and year *)








Lemma date_key_some p m d :
  date_key p = Some (m, d) ->
  is_payment p = true
  /\ exists dt, record_date p = Some dt /\ dt_month dt = m /\ dt_day dt = d.
Proof.
  unfold date_key. destruct (is_payment p); [|discriminate].
  destruct (record_date p) as [dt|]; [|discriminate].
  simpl. intros [= <- <-]. eauto.
Qed.

Lemma annual_payment_dates_entry ray group m d payments :
  In ((m, d), payments) (annual_payment_dates (analyse ray group)) ->
  payments <> []
  /\ forall p, In p payments ->
       In p group /\ date_key p = Some (m, d).
Proof.
  rewrite annual_payment_dates_analyse. intros Hin.
  apply dict_of_entry in Hin as [-> Hne]; [|apply md_eqb_eq].
  split; [exact Hne|]. intros p Hp. apply filter_In in Hp as [Hp Hk].
  split; [exact Hp|]. now apply (key_is_true md_eqb date_key md_eqb_eq) in Hk.
Qed.

Section Payments.

Variable now : datetime.
Variable set_iter : list Z -> list Z.
Hypothesis set_iter_spec : forall l x, In x (set_iter l) <-> In x l.

Lemma group_quarter_ret m payments :
  exists q, group_quarter set_iter m payments = Ret q
            /\ (omap quarter payments <> [] -> In q (omap quarter payments)).
Proof using set_iter_spec.
  unfold group_quarter. destruct (omap quarter payments) as [|q0 qs] eqn:E.
  - eexists. split; [reflexivity | congruence].
  - destruct (most_common_ret set_iter set_iter_spec (q0 :: qs)) as (q & Hq & Hin);
      [discriminate|].
    exists q. split; [exact Hq | now intros _].
Qed.





End Payments.








(** ** [sort_values] is a stable sort *)

Lemma ascii_compare_lt_trans a b c :
  Ascii.compare a b = Lt -> Ascii.compare b c = Lt -> Ascii.compare a c = Lt.
Proof.
  unfold Ascii.compare. rewrite !N.compare_lt_iff. apply N.lt_trans.
Qed.

Lemma ascii_compare_refl a : Ascii.compare a a = Eq.
Proof. unfold Ascii.compare. apply N.compare_refl. Qed.

Lemma string_compare_refl s : String.compare s s = Eq.
Proof.
  induction s as [|a s IH]; simpl; [reflexivity|].
  now rewrite ascii_compare_refl.
Qed.

Lemma string_compare_lt_trans a b c :
  String.compare a b = Lt -> String.compare b c = Lt -> String.compare a c = Lt.
Proof.
  revert b c. induction a as [|x a IH]; intros [|y b] [|z c]; simpl;
    try discriminate; try reflexivity.
  destruct (Ascii.compare x y) eqn:Exy; try discriminate;
    destruct (Ascii.compare y z) eqn:Eyz; try discriminate; intros Hab Hbc.
  - apply Ascii.compare_eq_iff in Exy, Eyz. subst.
    rewrite ascii_compare_refl. eauto.
  - apply Ascii.compare_eq_iff in Exy. subst. now rewrite Eyz.
  - apply Ascii.compare_eq_iff in Eyz. subst. now rewrite Exy.
  - now rewrite (ascii_compare_lt_trans _ _ _ Exy Eyz).
Qed.

Lemma string_compare_gt_lt a b :
  String.compare a b = Gt <-> String.compare b a = Lt.
Proof.
  rewrite (String.compare_antisym b a).
  destruct (String.compare a b); simpl; split; congruence.
Qed.

Lemma date_compare_le a b :
  date_compare a b <> Gt <->
  dt_year a < dt_year b
  \/ (dt_year a = dt_year b
      /\ (dt_month a < dt_month b
          \/ (dt_month a = dt_month b /\ dt_day a <= dt_day b))).
Proof.
  unfold date_compare.
  destruct (Z.compare_spec (dt_year a) (dt_year b));
    destruct (Z.compare_spec (dt_month a) (dt_month b));
    destruct (Z.compare_spec (dt_day a) (dt_day b));
    split; intros; try congruence; try lia.
Qed.

Lemma date_cell_leb_true a b :
  date_cell_leb a b = true <->
  match a, b with
  | Some x, Some y => date_compare x y <> Gt
  | _, None => True
  | None, Some _ => False
  end.
Proof.
  destruct a as [x|], b as [y|]; simpl; try tauto.
  - destruct (date_compare x y); split; congruence.
  - split; [discriminate | contradiction].
Qed.

Lemma date_cell_leb_trans a b c :
  date_cell_leb a b = true -> date_cell_leb b c = true ->
  date_cell_leb a c = true.
Proof.
  rewrite !date_cell_leb_true.
  destruct a as [x|], b as [y|], c as [z|]; try tauto.
  rewrite !date_compare_le. lia.
Qed.

Lemma date_cell_leb_total a b :
  date_cell_leb a b = true \/ date_cell_leb b a = true.
Proof.
  rewrite !date_cell_leb_true.
  destruct a as [x|], b as [y|]; try tauto.
  rewrite !date_compare_le. lia.
Qed.

(** What the order means: tickers ascending; within a ticker, dates
    ascending and the rows without a date last. *)
Lemma row_le_iff a b :
  row_le a b <->
  String.compare (ticker a) (ticker b) = Lt
  \/ (ticker a = ticker b
      /\ match record_date a, record_date b with
         | Some x, Some y => date_compare x y <> Gt
         | _, None => True
         | None, Some _ => False
         end).
Proof.
  unfold row_le, row_leb.
  destruct (String.compare (ticker a) (ticker b)) eqn:E.
  - apply String.compare_eq_iff in E. rewrite date_cell_leb_true.
    split; [now right | intros [|[_ H]]; [discriminate | exact H]].
  - split; [now left | reflexivity].
  - split; [discriminate|]. intros [|[Heq _]]; [discriminate|].
    rewrite Heq, string_compare_refl in E. discriminate.
Qed.

Lemma row_le_trans a b c : row_le a b -> row_le b c -> row_le a c.
Proof.
  unfold row_le, row_leb.
  destruct (String.compare (ticker a) (ticker b)) eqn:Eab; try discriminate;
    destruct (String.compare (ticker b) (ticker c)) eqn:Ebc; try discriminate;
    intros Hab Hbc.
  - apply String.compare_eq_iff in Eab, Ebc. rewrite Eab, Ebc.
    rewrite string_compare_refl. eapply date_cell_leb_trans; eauto.
  - apply String.compare_eq_iff in Eab. now rewrite Eab, Ebc.
  - apply String.compare_eq_iff in Ebc. now rewrite <- Ebc, Eab.
  - now rewrite (string_compare_lt_trans _ _ _ Eab Ebc).
Qed.

Lemma row_le_total a b : row_le a b \/ row_le b a.
Proof.
  unfold row_le, row_leb.
  destruct (String.compare (ticker a) (ticker b)) eqn:E.
  - apply String.compare_eq_iff in E. rewrite E, string_compare_refl.
    apply date_cell_leb_total.
  - now left.
  - apply string_compare_gt_lt in E. rewrite E. now right.
Qed.

Lemma insert_row_perm x l : Permutation (insert_row x l) (x :: l).
Proof.
  induction l as [|y l IH]; simpl; [reflexivity|].
  destruct (row_leb x y); [reflexivity|].
  rewrite IH. apply perm_swap.
Qed.

Lemma sort_values_perm l : Permutation (sort_values l) l.
Proof.
  induction l as [|x l IH]; simpl; [reflexivity|].
  unfold sort_values in *. simpl. rewrite insert_row_perm. now constructor.
Qed.

Lemma insert_row_sorted x l :
  StronglySorted row_le l -> StronglySorted row_le (insert_row x l).
Proof.
  induction l as [|y l IH]; intros Hs; simpl.
  - repeat constructor.
  - apply StronglySorted_inv in Hs as [Hs Hall].
    destruct (row_leb x y) eqn:E.
    + constructor; [now constructor|]. constructor; [exact E|].
      eapply Forall_impl; [|exact Hall]. intros z Hz.
      eapply row_le_trans; eauto.
    + constructor; [now apply IH|].
      assert (Hyx : row_le y x).
      { destruct (row_le_total x y) as [H|H]; [unfold row_le in H; congruence|].
        exact H. }
      eapply Permutation_Forall; [symmetry; apply insert_row_perm|].
      now constructor.
Qed.

Lemma sort_values_sorted l : StronglySorted row_le (sort_values l).
Proof.
  induction l as [|x l IH]; [constructor|].
  unfold sort_values in *. simpl. now apply insert_row_sorted.
Qed.

Lemma date_eqb_eq a b : date_eqb a b = true <-> a = b.
Proof.
  destruct a, b. unfold date_eqb. simpl.
  rewrite !andb_true_iff, !Z.eqb_eq. split.
  - intros [[-> ->] ->]. reflexivity.
  - intros [= -> -> ->]. auto.
Qed.

Lemma same_sort_key_iff k r :
  same_sort_key k r = true <->
  ticker k = ticker r /\ record_date k = record_date r.
Proof.
  unfold same_sort_key. rewrite andb_true_iff, String.eqb_eq.
  destruct (record_date k) as [x|], (record_date r) as [y|]; simpl.
  - rewrite date_eqb_eq. split; [intros [-> ->] | intros [-> [= ->]]]; auto.
  - split; [intros [_ [=]] | intros [_ [=]]].
  - split; [intros [_ [=]] | intros [_ [=]]].
  - tauto.
Qed.

Lemma same_sort_key_le x y k :
  same_sort_key k x = true -> same_sort_key k y = true -> row_leb x y = true.
Proof.
  rewrite !same_sort_key_iff. intros [Ht1 Hd1] [Ht2 Hd2].
  apply row_le_iff. right. split; [congruence|].
  rewrite <- Hd1, <- Hd2. destruct (record_date k) as [d|]; [|exact I].
  apply date_compare_le. lia.
Qed.

Lemma insert_row_stable k x l :
  filter (same_sort_key k) (insert_row x l)
  = filter (same_sort_key k) (x :: l).
Proof.
  induction l as [|y l IH]; simpl; [reflexivity|].
  destruct (row_leb x y) eqn:E; [reflexivity|].
  simpl in *. rewrite IH.
  destruct (same_sort_key k x) eqn:Ex; [|reflexivity].
  destruct (same_sort_key k y) eqn:Ey; [|reflexivity].
  rewrite (same_sort_key_le x y k Ex Ey) in E. discriminate.
Qed.

Lemma sort_values_stable k l :
  filter (same_sort_key k) (sort_values l) = filter (same_sort_key k) l.
Proof.
  induction l as [|x l IH]; [reflexivity|].
  unfold sort_values in *. simpl fold_right.
  rewrite insert_row_stable. simpl. now rewrite IH.
Qed.

Lemma sort_values_undated tk l :
  filter (undated_of tk) (sort_values l) = filter (undated_of tk) l.
Proof.
  set (k := mk_row tk EmptyString None 0%Q (Period_year 0) 0 None None None).
  assert (Hk : forall r, undated_of tk r = same_sort_key k r).
  { intros r. unfold undated_of, same_sort_key. simpl.
    destruct (record_date r); reflexivity. }
  rewrite !(filter_ext _ _ Hk). apply sort_values_stable.
Qed.

(** ** The frames the call creates and the frames it leaves alone *)

Lemma new_frame_fresh rows w : frames w !! fst (new_frame rows w) = None.
Proof. unfold new_frame; simpl. apply not_elem_of_dom, is_fresh. Qed.

Lemma new_frame_frame rows w :
  frame (snd (new_frame rows w)) (fst (new_frame rows w)) = rows.
Proof. unfold new_frame, frame; simpl. now rewrite lookup_insert_eq. Qed.

Lemma new_frame_keeps rows w ref old :
  frames w !! ref = Some old ->
  frames (snd (new_frame rows w)) !! ref = Some old.
Proof.
  intros H. unfold new_frame; simpl. rewrite lookup_insert_ne; [exact H|].
  intros E. pose proof (new_frame_fresh rows w) as Hf. unfold new_frame in Hf.
  simpl in Hf. rewrite E in Hf. congruence.
Qed.

Lemma new_frame_keeps_frame rows w ref old :
  frames w !! ref = Some old ->
  frame (snd (new_frame rows w)) ref = old.
Proof.
  intros H. unfold frame. now rewrite (new_frame_keeps rows w ref old H).
Qed.

Section Call.

Variable now : datetime.
Variable set_iter : list Z -> list Z.
Hypothesis set_iter_spec : forall l x, In x (set_iter l) <-> In x l.

Lemma emitted_all_rows years window df :
  emitted_all now set_iter years window df
  = flat_map (fun '(tk, group) =>
                ticker_rows now set_iter years window tk group)
      (groupby_ticker df).
Proof using set_iter_spec.
  unfold emitted_all.
  destruct (forecast_groups_run now set_iter set_iter_spec years window df
              (mk_locals [] 0)) as (n & Hn).
  now rewrite Hn.
Qed.

Lemma forecast_groups_returns years window df :
  exists n,
    forecast_groups now set_iter years window df (mk_locals [] 0)
    = (Ret tt, mk_locals (emitted_all now set_iter years window df) n).
Proof using set_iter_spec.
  destruct (forecast_groups_run now set_iter set_iter_spec years window df
              (mk_locals [] 0)) as (n & Hn).
  exists n. rewrite Hn. simpl. now rewrite emitted_all_rows.
Qed.

(** What a call does to the parser object and the frame store. *)
Lemma forecast_dividends_run years window w :
  let clean := frame w (self_clean_df w) in
  let df := map with_history_label clean in
  let fc := emitted_all now set_iter years window df in
  (clean = []
   /\ forecast_dividends now set_iter years window w = (Ret None, w))
  \/ (clean <> []
      /\ exists out w',
           forecast_dividends now set_iter years window w
           = (Ret (Some out), w')
           /\ frames w !! out = None
           /\ self_clean_df w' = self_clean_df w
           /\ self_result_df w' = Some out
           /\ (forall ref rows, frames w !! ref = Some rows ->
                                frames w' !! ref = Some rows)
           /\ frame w' out
              = if is_empty fc then df else sort_values (df ++ fc)).
Proof using set_iter_spec.
  intros clean df fc. unfold forecast_dividends. fold clean.
  destruct clean as [|c0 clean'] eqn:Eclean; [left; split; reflexivity|].
  right. split; [discriminate|]. simpl is_empty. cbv iota.
  rewrite <- Eclean.
  (* df = self.clean_df.copy() *)
  rewrite (surjective_pairing (new_frame clean w)).
  set (rdf := fst (new_frame clean w)). set (w1 := snd (new_frame clean w)).
  assert (Hfresh1 : frames w !! rdf = None) by apply new_frame_fresh.
  assert (Hkeep1 : forall ref rows, frames w !! ref = Some rows ->
                     frames w1 !! ref = Some rows)
    by (intros; now apply new_frame_keeps).
  assert (Hf1 : frame w1 rdf = clean) by apply new_frame_frame.
  (* df['forecast_strategy'] = ... *)
  rewrite Hf1.
  set (w2 := write_frame rdf (map with_history_label clean) w1).
  assert (Hdf2 : frames w2 !! rdf = Some df).
  { subst w2 df. unfold write_frame; simpl. rewrite Eclean.
    apply lookup_insert_eq. }
  assert (Hkeep2 : forall ref rows, frames w !! ref = Some rows ->
                     frames w2 !! ref = Some rows).
  { intros ref rows H. subst w2. unfold write_frame; simpl.
    rewrite lookup_insert_ne; [now apply Hkeep1|].
    intros E. rewrite <- E in H. congruence. }
  assert (Hf2 : frame w2 rdf = df) by (unfold frame; now rewrite Hdf2).
  rewrite Hf2.
  destruct (forecast_groups_returns years window df) as (n & Hrun).
  rewrite Hrun. fold fc. cbn [forecast_data].
  destruct fc as [|f0 fc'] eqn:Efc; simpl is_empty; cbv iota; simpl negb;
    cbv iota.
  - (* self.result_df = df.copy() *)
    rewrite (surjective_pairing (new_frame df w2)).
    set (n3 := new_frame df w2).
    exists (fst n3), (set_result_df (fst n3) (snd n3)).
    split; [reflexivity|]. split.
    { destruct (frames w !! fst n3) as [rows|] eqn:E; [|reflexivity].
      apply Hkeep2 in E.
      pose proof (new_frame_fresh df w2) as Hf. fold n3 in Hf. congruence. }
    split; [reflexivity|]. split; [reflexivity|]. split.
    { intros ref rows H. change (frames (snd n3) !! ref = Some rows).
      subst n3. now apply new_frame_keeps, Hkeep2. }
    change (frame (snd n3) (fst n3) = df). subst n3. apply new_frame_frame.
  - (* forecast_df, pd.concat, sort_values *)
    rewrite (surjective_pairing (new_frame (f0 :: fc') w2)).
    set (n3 := new_frame (f0 :: fc') w2).
    set (w3 := snd n3).
    assert (Hdf3 : frame w3 rdf = df)
      by (subst w3 n3; now apply new_frame_keeps_frame).
    assert (Hfc3 : frame w3 (fst n3) = f0 :: fc')
      by (subst w3 n3; apply new_frame_frame).
    rewrite Hdf3, Hfc3.
    rewrite (surjective_pairing (new_frame (df ++ f0 :: fc') w3)).
    set (n4 := new_frame (df ++ f0 :: fc') w3).
    set (w4 := snd n4).
    assert (Hf4 : frame w4 (fst n4) = df ++ f0 :: fc')
      by (subst w4 n4; apply new_frame_frame).
    rewrite Hf4.
    rewrite (surjective_pairing (new_frame (sort_values (df ++ f0 :: fc')) w4)).
    set (n5 := new_frame (sort_values (df ++ f0 :: fc')) w4).
    exists (fst n5), (set_result_df (fst n5) (snd n5)).
    assert (Hkeep4 : forall ref rows, frames w !! ref = Some rows ->
                       frames w4 !! ref = Some rows).
    { intros ref rows H. subst w4 n4 w3 n3.
      now apply new_frame_keeps, new_frame_keeps, Hkeep2. }
    split; [reflexivity|]. split.
    { destruct (frames w !! fst n5) as [rows|] eqn:E; [|reflexivity].
      apply Hkeep4 in E.
      pose proof (new_frame_fresh (sort_values (df ++ f0 :: fc')) w4) as Hf.
      fold n5 in Hf. congruence. }
    split; [reflexivity|]. split; [reflexivity|]. split.
    { intros ref rows H. change (frames (snd n5) !! ref = Some rows).
      subst n5. now apply new_frame_keeps, Hkeep4. }
    change (frame (snd n5) (fst n5) = sort_values (df ++ f0 :: fc')).
    subst n5. apply new_frame_frame.
Qed.

End Call.

(** ** The groups of [groupby] *)

Lemma insert_key_in k a keys :
  In k (insert_key a keys) <-> k = a \/ In k keys.
Proof.
  induction keys as [|b keys IH]; simpl; [intuition|].
  destruct (String.compare a b) eqn:E; simpl.
  - apply String.compare_eq_iff in E. subst. intuition.
  - intuition.
  - rewrite IH. intuition.
Qed.

Lemma group_keys_in k df : In k (group_keys df) <-> exists r, In r df /\ ticker r = k.
Proof.
  induction df as [|a df IH]; simpl.
  - split; [intros [] | intros (r & [] & _)].
  - rewrite insert_key_in, IH. split.
    + intros [->|(r & Hr & Ht)]; [exists a; auto | exists r; auto].
    + intros (r & [<-|Hr] & Ht); [left; congruence | right; eauto].
Qed.


(** ** The engine always terminates normally and always forecasts *)




(** ** The merged frame *)

Lemma StronglySorted_pair {A} (R : A -> A -> Prop) l1 a l2 b l3 :
  StronglySorted R (l1 ++ a :: l2 ++ b :: l3) -> R a b.
Proof.
  induction l1 as [|x l1 IH]; simpl; intros Hs.
  - apply StronglySorted_inv in Hs as [_ Hall].
    rewrite Forall_forall in Hall. apply Hall.
    apply in_or_app. right. now left.
  - apply StronglySorted_inv in Hs as [Hs _]. now apply IH.
Qed.

(** C8.  When forecasts were generated, the frame the call returns is the
    historical rows followed by the forecast rows, sorted: of any two rows
    the earlier one has the smaller ticker, or the same ticker and either an
    earlier-or-equal record date or the later row has no date; rows without
    a date therefore come after all dated rows of their ticker.  Rows with
    the same ticker and date, and in particular the undated rows of one
    ticker, keep the order they had in the concatenation. *)
Theorem merged_output_is_sorted
    (now : datetime) (set_iter : list Z -> list Z) (years window : Z)
    (w w' : World) (res : outcome (option nat)) :
  (forall l z, In z (set_iter l) <-> In z l) ->
  forecast_dividends now set_iter years window w = (res, w') ->
  let df := map with_history_label (frame w (self_clean_df w)) in
  let fc := emitted_all now set_iter years window df in
  fc <> [] ->
  exists out,
    res = Ret (Some out)
    /\ Permutation (frame w' out) (df ++ fc)
    /\ (forall l1 a l2 b l3,
          frame w' out = l1 ++ a :: l2 ++ b :: l3 ->
          String.compare (ticker a) (ticker b) = Lt
          \/ (ticker a = ticker b
              /\ match record_date a, record_date b with
                 | Some x, Some y => date_compare x y <> Gt
                 | _, None => True
                 | None, Some _ => False
                 end))
    /\ (forall k, filter (same_sort_key k) (frame w' out)
                  = filter (same_sort_key k) (df ++ fc))
    /\ (forall tk, filter (undated_of tk) (frame w' out)
                   = filter (undated_of tk) (df ++ fc)).
Proof.
  intros Hset Hcall df fc Hfc.
  destruct (forecast_dividends_run now set_iter Hset years window w)
    as [[Hnil _]|[_ (out & w1 & Hrun & _ & _ & _ & _ & Hframe)]].
  { exfalso. apply Hfc. subst fc df. rewrite Hnil. reflexivity. }
  rewrite Hrun in Hcall. injection Hcall as <- <-.
  fold df fc in Hframe.
  destruct fc as [|f0 fc'] eqn:E; [congruence|]. simpl in Hframe.
  exists out. rewrite Hframe. split; [reflexivity|]. split; [|split; [|split]].
  - apply sort_values_perm.
  - intros l1 a l2 b l3 Hsplit. apply row_le_iff.
    apply (StronglySorted_pair row_le l1 a l2 b l3). rewrite <- Hsplit.
    apply sort_values_sorted.
  - intros k. apply sort_values_stable.
  - intros tk. apply sort_values_undated.
Qed.

Lemma merged_output_is_sorted_witness :
  exists out w',
    forecast_dividends sample_now first_occurrences 2 3 sample_world
    = (Ret (Some out), w')
    /\ filter (undated_of "MIX") (frame w' out)
       = filter (undated_of "MIX")
           (map with_history_label (mixed_group ++ dormant_group)
            ++ emitted_all sample_now first_occurrences 2 3
                 (map with_history_label (mixed_group ++ dormant_group))).
Proof.
  destruct (forecast_dividends sample_now first_occurrences 2 3 sample_world)
    as [res w'] eqn:Hcall.
  destruct (merged_output_is_sorted sample_now first_occurrences 2 3
              sample_world w' res first_occurrences_spec Hcall)
    as (out & -> & _ & _ & _ & Hundated).
  - vm_compute. discriminate.
  - exists out, w'. split; [reflexivity|]. apply Hundated.
Defined.

(** ** The historical frame *)

(** C9.  A call leaves the cleaned historical frame as it was: the parser
    still refers to the same frame, that frame and every other frame that
    existed hold the rows they held, and the frame returned is a new object.
    The returned frame consists of the historical rows, each with its ticker,
    name, date, amount, period, year, quarter and provenance code, and of the
    rows the engine created, all of provenance code 2. *)
Theorem historical_frame_is_not_modified
    (now : datetime) (set_iter : list Z -> list Z) (years window : Z)
    (w w' : World) (res : outcome (option nat)) :
  (forall l z, In z (set_iter l) <-> In z l) ->
  forecast_dividends now set_iter years window w = (res, w') ->
  let clean := frame w (self_clean_df w) in
  let fc := emitted_all now set_iter years window
              (map with_history_label clean) in
  self_clean_df w' = self_clean_df w
  /\ frame w' (self_clean_df w') = clean
  /\ (forall ref rows, frames w !! ref = Some rows ->
                       frames w' !! ref = Some rows)
  /\ (forall z, In z fc -> forecast_type z = 2)
  /\ (clean <> [] ->
      exists out,
        res = Ret (Some out)
        /\ self_result_df w' = Some out
        /\ frames w !! out = None
        /\ Permutation (frame w' out) (map with_history_label clean ++ fc)
        /\ (forall x, In x clean ->
              exists z, In z (frame w' out)
                /\ ticker z = ticker x /\ name z = name x
                /\ record_date z = record_date x
                /\ dividend_value z = dividend_value x
                /\ period z = period x
                /\ forecast_type z = forecast_type x
                /\ year z = year x /\ quarter z = quarter x)).
Proof.
  intros Hset Hcall clean fc.
  assert (Htype : forall z, In z fc -> forecast_type z = 2).
  { intros z Hz. subst fc. rewrite (emitted_all_rows now set_iter Hset) in Hz.
    apply in_flat_map in Hz as ([tk group] & _ & Hz).
    apply in_ticker_rows in Hz as (nm & dt & v & q & y & label & _ & -> & _).
    reflexivity. }
  destruct (forecast_dividends_run now set_iter Hset years window w)
    as [[Hnil Hrun]|[Hne (out & w1 & Hrun & Hnew & Hself & Hres & Hkeep & Hframe)]];
    rewrite Hrun in Hcall; injection Hcall as <- <-.
  - repeat split; auto. intros Hne. fold clean in Hnil. congruence.
  - fold clean fc in Hframe.
    assert (Hclean : frames w !! self_clean_df w = Some clean).
    { subst clean. unfold frame in *.
      destruct (frames w !! self_clean_df w); [reflexivity|].
      simpl in Hne. congruence. }
    split; [exact Hself|]. split.
    { rewrite Hself. unfold frame. now rewrite (Hkeep _ _ Hclean). }
    split; [exact Hkeep|]. split; [exact Htype|].
    intros _. exists out.
    assert (Hperm : Permutation (frame w1 out)
                      (map with_history_label clean ++ fc)).
    { rewrite Hframe. destruct fc; simpl.
      - now rewrite app_nil_r.
      - apply sort_values_perm. }
    split; [reflexivity|]. split; [exact Hres|]. split; [exact Hnew|].
    split; [exact Hperm|].
    intros x Hx. exists (with_history_label x). split.
    + eapply Permutation_in; [symmetry; exact Hperm|].
      apply in_or_app. left. now apply in_map.
    + repeat split.
Qed.

Lemma historical_frame_is_not_modified_witness :
  exists res w',
    forecast_dividends sample_now first_occurrences 2 3 sample_world
    = (res, w')
    /\ frame w' (self_clean_df w') = mixed_group ++ dormant_group
    /\ self_result_df w' <> Some (self_clean_df w').
Proof.
  destruct (forecast_dividends sample_now first_occurrences 2 3 sample_world)
    as [res w'] eqn:Hcall.
  exists res, w'. split; [reflexivity|].
  destruct (historical_frame_is_not_modified sample_now first_occurrences 2 3
              sample_world w' res first_occurrences_spec Hcall)
    as (Hself & Hclean & _ & _ & Hout).
  split; [exact Hclean|].
  destruct Hout as (out & _ & Hres & Hnew & _); [vm_compute; discriminate|].
  rewrite Hres, Hself. intros [= ->]. vm_compute in Hnew. discriminate Hnew.
Defined.

(** * Further properties *)

Lemma make_forecast_date_clamps y m d :
  MINYEAR <= y <= MAXYEAR -> 1 <= m <= 12 -> 1 <= d <= 31 ->
  make_forecast_date y m d
  = Ret (mk_datetime y m (Z.min d (days_in_month y m))).
Proof.
  intros Hy Hm Hd. unfold make_forecast_date.
  destruct (valid_date y m d) eqn:Hv.
  - rewrite (datetime_valid _ _ _ Hv).
    apply valid_date_iff in Hv. f_equal. f_equal. lia.
  - rewrite (datetime_invalid _ _ _ Hv).
    assert (Hdim : days_in_month y m < d).
    { destruct (Z.ltb_spec (days_in_month y m) d) as [H|H]; [exact H|].
      assert (valid_date y m d = true) by (apply valid_date_iff; lia).
      congruence. }
    rewrite Z.min_r by lia.
    unfold days_in_month in *.
    destruct (m =? 2) eqn:E2.
    + assert (H28 : (28 <? d) = true) by (destruct (is_leap y); lia).
      rewrite H28. simpl. assert (m = 2) by lia. subst m.
      destruct (is_leap y) eqn:El; apply datetime_valid, valid_date_iff;
        unfold days_in_month; rewrite El; simpl; lia.
    + cbn [andb]. destruct (in_list m [4; 6; 9; 11]) eqn:E30; [|lia].
      assert (H30 : (30 <? d) = true) by lia. rewrite H30. cbn [andb].
      apply datetime_valid, valid_date_iff.
      unfold days_in_month. rewrite E2, E30. lia.
Qed.

Lemma minus_one_day_valid dt dt' :
  valid dt = true -> minus_one_day dt = Ret dt' -> valid dt' = true.
Proof.
  destruct dt as [y m d]. unfold valid, minus_one_day; cbn [dt_year dt_month dt_day].
  intros Hv. apply valid_date_iff in Hv. unfold MINYEAR, MAXYEAR in *.
  destruct (1 <? d) eqn:E1.
  - intros [= <-]. cbn. apply valid_date_iff. unfold MINYEAR, MAXYEAR. lia.
  - destruct (1 <? m) eqn:E2.
    + intros [= <-]. cbn. apply valid_date_iff. unfold MINYEAR, MAXYEAR.
      pose proof (days_in_month_bounds y (m - 1)). lia.
    + destruct (1 <? y) eqn:E3; [|discriminate].
      intros [= <-]. cbn. apply valid_date_iff. unfold MINYEAR, MAXYEAR.
      unfold days_in_month; simpl. lia.
Qed.

Lemma datetime_ret y m d dt : datetime_ y m d = Ret dt -> valid dt = true.
Proof.
  unfold datetime_. destruct (valid_date y m d) eqn:E; [|discriminate].
  now intros [= <-].
Qed.

Lemma make_forecast_date_ret_valid y m d dt :
  make_forecast_date y m d = Ret dt -> valid dt = true.
Proof.
  unfold make_forecast_date.
  destruct (datetime_ y m d) as [dt0|e] eqn:E0.
  - intros [= <-]. eapply datetime_ret; eauto.
  - destruct e; try discriminate.
    destruct ((m =? 2) && (28 <? d)).
    + destruct (is_leap y); apply datetime_ret.
    + destruct ((30 <? d) && in_list m [4; 6; 9; 11]); [apply datetime_ret|].
      destruct (1 <? m); [|apply datetime_ret].
      destruct (datetime_ y m 1) as [d1|e1] eqn:E1; simpl; [|discriminate].
      apply minus_one_day_valid. eapply datetime_ret; eauto.
Qed.

(** ** Which strategy produced the rows *)

Lemma ticker_rows_cases now set_iter years window tk group :
  let cy := dt_year now in
  let h := analyse (cy - window) group in
  let out := ticker_rows now set_iter years window tk group in
  out = grid_rows cy years tk group 0%Q Inactive_company
  \/ out = quarterly_rows now set_iter cy years tk group h
  \/ out = payment_rows set_iter cy years tk group h
  \/ out = annual_rows cy years tk group h
  \/ out = grid_rows cy years tk group 0%Q Emergency.
Proof.
  intros cy h out. subst out. unfold ticker_rows, chain_rows. fold cy. fold h.
  destruct (Qeq_bool (recent_payments_sum h) 0); [now left|]. right.
  destruct (has_quarterly_data h).
  - destruct (quarterly_rows now set_iter cy years tk group h) eqn:E1.
    + cbn [is_empty andb].
      destruct (negb (is_empty (annual_payment_dates h))).
      * destruct (payment_rows set_iter cy years tk group h) eqn:E2.
        -- cbn [is_empty andb]. destruct (len (all_payments h) >? 0).
           ++ destruct (annual_rows cy years tk group h) eqn:E3; cbn [is_empty];
                [now do 3 right | right; right; now left].
           ++ cbn [is_empty]. now do 3 right.
        -- cbn [is_empty andb]. right. now left.
      * cbn [is_empty andb]. destruct (len (all_payments h) >? 0).
        -- destruct (annual_rows cy years tk group h) eqn:E3; cbn [is_empty];
             [now do 3 right | right; right; now left].
        -- cbn [is_empty]. now do 3 right.
    + cbn [is_empty andb]. now left.
  - cbn [is_empty andb].
    destruct (negb (is_empty (annual_payment_dates h))).
    + destruct (payment_rows set_iter cy years tk group h) eqn:E2.
      * cbn [is_empty andb]. destruct (len (all_payments h) >? 0).
        -- destruct (annual_rows cy years tk group h) eqn:E3; cbn [is_empty];
             [now do 3 right | right; right; now left].
        -- cbn [is_empty]. now do 3 right.
      * cbn [is_empty andb]. right. now left.
    + cbn [is_empty andb]. destruct (len (all_payments h) >? 0).
      * destruct (annual_rows cy years tk group h) eqn:E3; cbn [is_empty];
          [now do 3 right | right; right; now left].
      * cbn [is_empty]. now do 3 right.
Qed.

Lemma ticker_rows_no_horizon now set_iter years window tk group :
  years <= 0 -> ticker_rows now set_iter years window tk group = [].
Proof.
  intros Hy.
  destruct (ticker_rows now set_iter years window tk group) as [|x l] eqn:E;
    [reflexivity|].
  assert (Hin : In x (ticker_rows now set_iter years window tk group))
    by (rewrite E; now left).
  apply in_ticker_rows in Hin as (nm & dt & v & q & y & label & Hin & _).
  apply in_future_years in Hin. lia.
Qed.

(** ** The call on degenerate input *)

Lemma emitted_all_no_horizon now set_iter years window df :
  (forall l z, In z (set_iter l) <-> In z l) ->
  years <= 0 -> emitted_all now set_iter years window df = [].
Proof.
  intros Hset Hy. rewrite (emitted_all_rows now set_iter Hset).
  apply flat_map_nil. intros [tk group] _.
  now apply ticker_rows_no_horizon.
Qed.

Lemma frame_lookup w ref :
  frame w ref <> [] -> frames w !! ref = Some (frame w ref).
Proof.
  unfold frame. destruct (frames w !! ref); [reflexivity|].
  simpl. congruence.
Qed.

Lemma sort_values_nonempty l : l <> [] -> sort_values l <> [].
Proof.
  intros Hl Hs. pose proof (sort_values_perm l) as Hp. rewrite Hs in Hp.
  apply Permutation_nil in Hp. contradiction.
Qed.

(** X.  With a horizon of zero (or a negative one) years the engine
    forecasts nothing, and the call returns a copy of the labelled history in
    its original order: the merged frame is sorted only when there are
    forecasts. *)
Theorem no_horizon_returns_unsorted_history
    (now : datetime) (set_iter : list Z -> list Z) (years window : Z)
    (w : World) :
  (forall l z, In z (set_iter l) <-> In z l) ->
  years <= 0 ->
  frame w (self_clean_df w) <> [] ->
  emitted_all now set_iter years window
    (map with_history_label (frame w (self_clean_df w))) = []
  /\ exists out w',
       forecast_dividends now set_iter years window w = (Ret (Some out), w')
       /\ self_result_df w' = Some out
       /\ frame w' out = map with_history_label (frame w (self_clean_df w)).
Proof.
  intros Hset Hy Hne.
  pose proof (emitted_all_no_horizon now set_iter years window
                (map with_history_label (frame w (self_clean_df w))) Hset Hy)
    as Hfc.
  split; [exact Hfc|].
  destruct (forecast_dividends_run now set_iter Hset years window w)
    as [[Hnil _]|[_ (out & w' & Hrun & _ & _ & Hres & _ & Hframe)]];
    [contradiction|].
  exists out, w'. split; [exact Hrun|]. split; [exact Hres|].
  rewrite Hframe, Hfc. reflexivity.
Qed.

Lemma no_horizon_returns_unsorted_history_witness :
  exists out w',
    forecast_dividends sample_now first_occurrences 0 3 sample_world
    = (Ret (Some out), w')
    /\ frame w' out = map with_history_label (mixed_group ++ dormant_group).
Proof.
  destruct (no_horizon_returns_unsorted_history sample_now first_occurrences
              0 3 sample_world first_occurrences_spec)
    as (_ & out & w' & Hrun & _ & Hframe);
    [lia | vm_compute; discriminate |].
  exists out, w'. split; [exact Hrun | exact Hframe].
Defined.

(** X.  The call returns [None] exactly when the cleaned frame is empty;
    it then changes nothing, so a result frame left by an earlier call stays
    in [self.result_df].  Otherwise it returns a new, non-empty frame and
    stores it in [self.result_df]. *)
Theorem empty_history_returns_none
    (now : datetime) (set_iter : list Z -> list Z) (years window : Z)
    (w : World) :
  (forall l z, In z (set_iter l) <-> In z l) ->
  (frame w (self_clean_df w) = [] ->
   forecast_dividends now set_iter years window w = (Ret None, w))
  /\ (frame w (self_clean_df w) <> [] ->
      exists out w',
        forecast_dividends now set_iter years window w = (Ret (Some out), w')
        /\ self_result_df w' = Some out
        /\ out <> self_clean_df w
        /\ frame w' out <> [])
  /\ (fst (forecast_dividends now set_iter years window w) = Ret None <->
      frame w (self_clean_df w) = []).
Proof.
  intros Hset.
  destruct (forecast_dividends_run now set_iter Hset years window w)
    as [[Hnil Hrun]|[Hne (out & w' & Hrun & Hnew & _ & Hres & _ & Hframe)]].
  - split; [intros _; exact Hrun|]. split; [intros H; contradiction|].
    rewrite Hrun. simpl. tauto.
  - split; [intros H; contradiction|].
    assert (Hout : frame w' out <> []).
    { rewrite Hframe.
      assert (Hdf : map with_history_label (frame w (self_clean_df w)) <> []).
      { destruct (frame w (self_clean_df w)); [congruence | discriminate]. }
      destruct (is_empty _); [exact Hdf|].
      apply sort_values_nonempty.
      destruct (map with_history_label (frame w (self_clean_df w)));
        [congruence | discriminate]. }
    split.
    + intros _. exists out, w'. split; [exact Hrun|]. split; [exact Hres|].
      split; [|exact Hout].
      intros ->. apply frame_lookup in Hne. congruence.
    + rewrite Hrun. simpl. split; [discriminate | intros H; contradiction].
Qed.

Lemma empty_history_returns_none_witness :
  frame stale_world (self_clean_df stale_world) = []
  /\ forecast_dividends sample_now first_occurrences 2 3 stale_world
     = (Ret None, stale_world)
  /\ self_result_df stale_world = Some 7%nat.
Proof.
  split; [reflexivity|]. split; [|reflexivity].
  apply (empty_history_returns_none sample_now first_occurrences 2 3
           stale_world first_occurrences_spec).
  reflexivity.
Defined.

Lemma result_rows now set_iter years window w out w' z :
  (forall l x, In x (set_iter l) <-> In x l) ->
  forecast_dividends now set_iter years window w = (Ret (Some out), w') ->
  In z (frame w' out) ->
  (exists x, In x (frame w (self_clean_df w)) /\ z = with_history_label x)
  \/ In z (emitted_all now set_iter years window
             (map with_history_label (frame w (self_clean_df w)))).
Proof.
  intros Hset Hcall Hz.
  destruct (forecast_dividends_run now set_iter Hset years window w)
    as [[_ Hrun]|[_ (out1 & w1 & Hrun & _ & _ & _ & _ & Hframe)]];
    rewrite Hrun in Hcall; [discriminate|].
  injection Hcall as <- <-. rewrite Hframe in Hz.
  assert (Hin : In z (map with_history_label (frame w (self_clean_df w))
                      ++ emitted_all now set_iter years window
                           (map with_history_label (frame w (self_clean_df w))))).
  { destruct (is_empty _) eqn:E.
    - apply in_or_app. now left.
    - eapply Permutation_in; [apply sort_values_perm | exact Hz]. }
  apply in_app_or in Hin as [Hin|Hin]; [left | now right].
  apply in_map_iff in Hin as (x & <- & Hx). eauto.
Qed.

Lemma emitted_all_shape now set_iter years window df z :
  (forall l x, In x (set_iter l) <-> In x l) ->
  In z (emitted_all now set_iter years window df) ->
  exists tk nm dt v q y label,
    In y (future_years (dt_year now) years)
    /\ z = forecast_row tk nm dt v (Period_quarter q y) y (Some q) label
    /\ In label [Quarterly_data; Payment_dates; Annual_data; Emergency;
                 Inactive_company].
Proof.
  intros Hset Hz. rewrite (emitted_all_rows now set_iter Hset) in Hz.
  apply in_flat_map in Hz as ([tk group] & _ & Hz).
  apply in_ticker_rows in Hz as (nm & dt & v & q & y & label & H).
  exists tk, nm, dt, v, q, y, label. exact H.
Qed.

(** X.  In the frame the call returns every row has a strategy label, the
    label "actual data" marks exactly the rows of provenance 0, and no row is
    labelled by the single-annual fallback.  When the history holds only
    provenances 0 and 1 (all the parser writes), "site forecast" marks
    exactly provenance 1 and the labels of the engine exactly provenance 2. *)
Theorem strategy_label_matches_provenance
    (now : datetime) (set_iter : list Z -> list Z) (years window : Z)
    (w w' : World) (out : nat) (z : Row) :
  (forall l x, In x (set_iter l) <-> In x l) ->
  forecast_dividends now set_iter years window w = (Ret (Some out), w') ->
  In z (frame w' out) ->
  forecast_strategy z <> None
  /\ forecast_strategy z <> Some Single_annual
  /\ (forecast_strategy z = Some Actual_data <-> forecast_type z = 0)
  /\ ((forall x, In x (frame w (self_clean_df w)) ->
         forecast_type x = 0 \/ forecast_type x = 1) ->
      (forecast_strategy z = Some Site_forecast <-> forecast_type z = 1)
      /\ (is_engine_label (forecast_strategy z) = true <-> forecast_type z = 2)).
Proof.
  intros Hset Hcall Hz.
  destruct (result_rows _ _ _ _ _ _ _ _ Hset Hcall Hz) as [(x & Hx & ->)|Hfc].
  - unfold with_history_label; cbn [forecast_strategy forecast_type].
    destruct (forecast_type x =? 0) eqn:E0.
    + split; [discriminate|]. split; [discriminate|].
      split; [split; [lia | reflexivity]|].
      intros _. split; (split; [discriminate | lia]).
    + split; [discriminate|]. split; [discriminate|].
      split; [split; [discriminate | lia]|].
      intros H. split.
      * split; [|reflexivity]. intros _. destruct (H x Hx); lia.
      * split; [discriminate|]. destruct (H x Hx); lia.
  - apply (emitted_all_shape _ _ _ _ _ _ Hset) in Hfc
      as (tk & nm & dt & v & q & y & label & _ & -> & Hl).
    cbn [forecast_row forecast_strategy forecast_type].
    simpl in Hl.
    destruct Hl as [<-|[<-|[<-|[<-|[<-|[]]]]]];
      (split; [discriminate|]; split; [discriminate|];
       split; [split; [discriminate | lia]|];
       intros _; split; [split; [discriminate | lia]|];
       split; reflexivity).
Qed.

Lemma strategy_label_matches_provenance_witness :
  exists out w',
    forecast_dividends sample_now first_occurrences 2 3 sample_world
    = (Ret (Some out), w')
    /\ forall z, In z (frame w' out) ->
         (forecast_strategy z = Some Actual_data <-> forecast_type z = 0).
Proof.
  destruct (forecast_dividends_run sample_now first_occurrences
              first_occurrences_spec 2 3 sample_world)
    as [[Hnil _]|[_ (out & w' & Hrun & _)]];
    [vm_compute in Hnil; discriminate|].
  exists out, w'. split; [exact Hrun|]. intros z Hz.
  apply (strategy_label_matches_provenance sample_now first_occurrences 2 3
           sample_world w' out z first_occurrences_spec Hrun Hz).
Defined.

(** X.  Calling the engine a second time on the parser object the first
    call left behind gives a second new frame with the same rows; the frame
    of the first call stays stored, unchanged. *)
Theorem second_call_repeats_the_forecast
    (now : datetime) (set_iter : list Z -> list Z) (years window : Z)
    (w w1 : World) (out1 : nat) :
  (forall l z, In z (set_iter l) <-> In z l) ->
  forecast_dividends now set_iter years window w = (Ret (Some out1), w1) ->
  exists out2 w2,
    forecast_dividends now set_iter years window w1 = (Ret (Some out2), w2)
    /\ out2 <> out1
    /\ self_result_df w2 = Some out2
    /\ frame w2 out2 = frame w1 out1
    /\ frame w2 out1 = frame w1 out1.
Proof.
  intros Hset Hcall.
  destruct (forecast_dividends_run now set_iter Hset years window w)
    as [[_ Hrun]|[Hne (o1 & w1' & Hrun & Hnew & Hself & Hres & Hkeep & Hframe)]];
    rewrite Hrun in Hcall; [discriminate|].
  injection Hcall as -> ->.
  pose proof (frame_lookup _ _ Hne) as Hclean.
  assert (Hsame : frame w1 (self_clean_df w1) = frame w (self_clean_df w)).
  { rewrite Hself. unfold frame at 1. now rewrite (Hkeep _ _ Hclean). }
  assert (Hout1 : frame w1 out1 <> []).
  { rewrite Hframe.
    assert (Hdf : map with_history_label (frame w (self_clean_df w)) <> []).
    { destruct (frame w (self_clean_df w)); [congruence | discriminate]. }
    destruct (is_empty _); [exact Hdf|].
    apply sort_values_nonempty.
    destruct (map with_history_label (frame w (self_clean_df w)));
      [congruence | discriminate]. }
  destruct (forecast_dividends_run now set_iter Hset years window w1)
    as [[Hnil _]|[_ (o2 & w2 & Hrun2 & Hnew2 & _ & Hres2 & Hkeep2 & Hframe2)]].
  { rewrite Hsame in Hnil. contradiction. }
  exists o2, w2. split; [exact Hrun2|].
  pose proof (frame_lookup _ _ Hout1) as Hl1.
  split; [intros ->; congruence|]. split; [exact Hres2|]. split.
  - rewrite Hframe2, Hframe, Hsame. reflexivity.
  - unfold frame at 1. now rewrite (Hkeep2 _ _ Hl1).
Qed.

Lemma second_call_repeats_the_forecast_witness :
  exists out1 w1 out2 w2,
    forecast_dividends sample_now first_occurrences 2 3 sample_world
    = (Ret (Some out1), w1)
    /\ forecast_dividends sample_now first_occurrences 2 3 w1
       = (Ret (Some out2), w2)
    /\ out2 <> out1
    /\ frame w2 out2 = frame w1 out1.
Proof.
  destruct (forecast_dividends_run sample_now first_occurrences
              first_occurrences_spec 2 3 sample_world)
    as [[Hnil _]|[_ (out1 & w1 & Hrun & _)]];
    [vm_compute in Hnil; discriminate|].
  destruct (second_call_repeats_the_forecast sample_now first_occurrences 2 3
              sample_world w1 out1 first_occurrences_spec Hrun)
    as (out2 & w2 & Hrun2 & Hne & _ & Hsame & _).
  exists out1, w1, out2, w2. auto.
Defined.

(** ** The activity gate *)

Lemma recent_sum_fold ray l acc :
  (0 <= acc)%Q ->
  let f := fun (a : Q) (r : Row) =>
             if counts_recent ray r then (a + dividend_value r)%Q else a in
  (acc <= fold_left f l acc)%Q
  /\ ((exists r, In r l /\ counts_recent ray r = true) ->
      (acc < fold_left f l acc)%Q)
  /\ ((forall r, In r l -> counts_recent ray r = false) ->
      fold_left f l acc = acc).
Proof.
  intros Hacc f. revert acc Hacc.
  induction l as [|x l IH]; intros acc Hacc; simpl.
  - split; [apply Qle_refl|]. split; [intros (r & [] & _) | reflexivity].
  - assert (Hstep : (acc <= f acc x)%Q
                    /\ (counts_recent ray x = true -> (acc < f acc x)%Q)
                    /\ (counts_recent ray x = false -> f acc x = acc)).
    { unfold f. destruct (counts_recent ray x) eqn:E.
      - unfold counts_recent, is_payment in E.
        apply andb_true_iff in E as [E _]. apply andb_true_iff in E as [_ E].
        unfold Qgtb in E. apply negb_true_iff in E.
        assert (Hpos : (0 < dividend_value x)%Q).
        { apply Qnot_le_lt. intros Hle. apply Qle_bool_iff in Hle. congruence. }
        split; [|split; [intros _|discriminate]].
        + rewrite <- (Qplus_0_r acc) at 1. apply Qplus_le_r. now apply Qlt_le_weak.
        + rewrite <- (Qplus_0_r acc) at 1. now apply Qplus_lt_r.
      - split; [apply Qle_refl|]. split; [discriminate | reflexivity]. }
    destruct Hstep as (H1 & H2 & H3).
    assert (Hacc' : (0 <= f acc x)%Q) by (eapply Qle_trans; eauto).
    destruct (IH (f acc x) Hacc') as (I1 & I2 & I3).
    split; [eapply Qle_trans; eauto|]. split.
    + intros (r & [<-|Hin] & Hr).
      * eapply Qlt_le_trans; [now apply H2 | exact I1].
      * eapply Qle_lt_trans; [exact H1 | apply I2; eauto].
    + intros Hnone. rewrite I3 by (intros r Hr; apply Hnone; now right).
      apply H3, Hnone. now left.
Qed.

Lemma passes_gate_iff cy window group :
  passes_gate cy window group = true <->
  exists r, In r group /\ counts_recent (cy - window) r = true.
Proof.
  unfold passes_gate. rewrite recent_payments_sum_analyse.
  destruct (recent_sum_fold (cy - window) group 0 (Qle_refl 0)) as (_ & Hpos & Hzero).
  rewrite negb_true_iff. split.
  - intros Hne.
    destruct (existsb (counts_recent (cy - window)) group) eqn:E.
    + apply existsb_exists in E. exact E.
    + exfalso. rewrite Hzero in Hne; [discriminate|].
      intros r Hr. destruct (counts_recent (cy - window) r) eqn:Er; [|reflexivity].
      assert (existsb (counts_recent (cy - window)) group = true)
        by (apply existsb_exists; eauto).
      congruence.
  - intros Hex. specialize (Hpos Hex).
    destruct (Qeq_bool _ 0) eqn:E; [|reflexivity].
    apply Qeq_bool_iff in E. rewrite E in Hpos. now apply Qlt_irrefl in Hpos.
Qed.

(** X.  A security passes the activity gate exactly when its history holds a
    row of provenance 0 with a positive amount and a year not older than the
    window.  Site forecasts, rows without a year and rows without a positive
    amount never open the gate. *)
Theorem activity_gate_needs_a_recent_payment
    (current_year window : Z) (group : list Row) :
  passes_gate current_year window group = true <->
  exists r y,
    In r group
    /\ forecast_type r = 0
    /\ year r = Some y
    /\ current_year - window <= y
    /\ (0 < dividend_value r)%Q.
Proof.
  rewrite passes_gate_iff. split.
  - intros (r & Hin & Hr). unfold counts_recent, is_payment, is_actual, has_year in Hr.
    destruct (year r) as [y|] eqn:Ey;
      [|rewrite andb_false_r in Hr; discriminate].
    exists r, y.
    apply andb_true_iff in Hr as [Hr Hy]. apply andb_true_iff in Hr as [Hr Hv].
    apply andb_true_iff in Hr as [Ht _].
    unfold Qgtb in Hv. apply negb_true_iff in Hv.
    repeat split; try assumption; try lia.
    apply Qnot_le_lt. intros Hle. apply Qle_bool_iff in Hle. congruence.
  - intros (r & y & Hin & Ht & Hy & Hw & Hv). exists r. split; [exact Hin|].
    unfold counts_recent, is_payment, is_actual, has_year. rewrite Hy, Ht.
    simpl. apply andb_true_iff. split; [|lia].
    unfold Qgtb. apply negb_true_iff.
    destruct (Qle_bool (dividend_value r) 0) eqn:E; [|reflexivity].
    apply Qle_bool_iff in E. exfalso. eapply Qlt_not_le; eauto.
Qed.

(** ** Rounding *)

Lemma round_half_even_bounds x :
  (inject_Z (round_half_even x) - (1 # 2) <= x)%Q
  /\ (x <= inject_Z (round_half_even x) + (1 # 2))%Q.
Proof.
  unfold round_half_even.
  pose proof (Qfloor_le x) as Hlo. pose proof (Qlt_floor x) as Hhi.
  set (f := Qfloor x) in *. clearbody f.
  assert (Hf1 : (inject_Z (f + 1) == inject_Z f + 1)%Q).
  { rewrite inject_Z_plus. reflexivity. }
  rewrite Hf1 in Hhi.
  destruct (x - inject_Z f ?= 1 # 2)%Q eqn:E.
  - apply Qeq_alt in E.
    destruct (Z.even f); [|rewrite Hf1]; clear Hf1;
      revert E Hlo Hhi; generalize (inject_Z f); intros F E Hlo Hhi; split; lra.
  - apply Qlt_alt in E. clear Hf1.
    revert E Hlo Hhi; generalize (inject_Z f); intros F E Hlo Hhi; split; lra.
  - apply Qgt_alt in E. rewrite Hf1. clear Hf1.
    revert E Hlo Hhi; generalize (inject_Z f); intros F E Hlo Hhi; split; lra.
Qed.

Lemma hundredths n : (n # 100 == inject_Z n * (1 # 100))%Q.
Proof. unfold Qeq, inject_Z; simpl. lia. Qed.

Lemma round2_bounds x :
  (round2 x - (1 # 200) <= x)%Q /\ (x <= round2 x + (1 # 200))%Q.
Proof.
  unfold round2. rewrite hundredths.
  destruct (round_half_even_bounds (x * 100)) as [Hlo Hhi].
  revert Hlo Hhi. generalize (inject_Z (round_half_even (x * 100))).
  intros F Hlo Hhi. split; lra.
Qed.

Lemma round_half_even_nonneg x : (0 <= x)%Q -> 0 <= round_half_even x.
Proof.
  intros Hx. unfold round_half_even.
  assert (Hf : 0 <= Qfloor x).
  { change 0 with (Qfloor 0). now apply Qfloor_resp_le. }
  destruct (x - inject_Z (Qfloor x) ?= 1 # 2)%Q; [destruct (Z.even _)| |]; lia.
Qed.

Lemma round2_nonneg x : (0 <= x)%Q -> (0 <= round2 x)%Q.
Proof.
  intros Hx. unfold round2.
  assert (H : 0 <= round_half_even (x * 100)).
  { apply round_half_even_nonneg. lra. }
  unfold Qle; simpl. lia.
Qed.

Lemma qsum_fold_nonneg (l : list Q) acc :
  (0 <= acc)%Q -> (forall v, In v l -> (0 <= v)%Q) ->
  (0 <= fold_left Qplus l acc)%Q.
Proof.
  revert acc. induction l as [|v l IH]; intros acc Hacc Hl; simpl; [exact Hacc|].
  apply IH.
  - assert (0 <= v)%Q by (apply Hl; now left). lra.
  - intros v' Hv'. apply Hl. now right.
Qed.

Lemma mean_nonneg (l : list Q) a :
  (forall v, In v l -> (0 <= v)%Q) -> mean l = Ret a -> (0 <= a)%Q.
Proof.
  intros Hl. unfold mean. destruct (len l =? 0) eqn:E; [discriminate|].
  intros [= <-].
  assert (Hs : (0 <= qsum l)%Q) by (apply qsum_fold_nonneg; [lra | exact Hl]).
  assert (Hn : (0 < inject_Z (len l))%Q).
  { unfold len in *. rewrite <- (Zlt_Qlt 0). lia. }
  apply Qle_shift_div_l; [exact Hn|]. lra.
Qed.

(** ** The rows of each strategy, one by one *)

Lemma in_grid_rows_of cy years tk r group v label x :
  In x (grid_rows cy years tk (r :: group) v label) ->
  exists dt q y m d,
    In y (future_years cy years)
    /\ In (q, (m, d)) (enumerate quarterly_dates 1)
    /\ make_forecast_date y m d = Ret dt
    /\ x = forecast_row tk (name r) dt v (Period_quarter q y) y (Some q) label.
Proof.
  unfold grid_rows. intros H.
  apply in_flat_map in H as ([q [m d]] & Hq & H).
  apply in_flat_map in H as (y & Hy & H). unfold grid_point in H.
  destruct (make_forecast_date y m d) as [dt|] eqn:E; [|contradiction].
  simpl in H. destruct H as [<-|[]]. exists dt, q, y, m, d. auto.
Qed.

Lemma in_quarterly_rows_of now set_iter cy years tk r group h x :
  In x (quarterly_rows now set_iter cy years tk (r :: group) h) ->
  exists q history y dt v,
    In (q, history) (ticker_quarters h)
    /\ In y (future_years cy years)
    /\ x = forecast_row tk (name r) dt v (Period_quarter q y) y (Some q)
             Quarterly_data
    /\ (site_override (site_forecasts h !! (y, q)) = Some (dt, v)
        \/ exists m d avg,
             site_override (site_forecasts h !! (y, q)) = None
             /\ typical_month now set_iter history = Ret m
             /\ typical_day m history = Ret d
             /\ make_forecast_date y m d = Ret dt
             /\ mean (map dividend_value history) = Ret avg
             /\ v = round2 avg).
Proof.
  unfold quarterly_rows. intros H.
  apply in_flat_map in H as ([q history] & Hq & H).
  unfold quarterly_item_rows in H.
  destruct history as [|r0 history]; [contradiction|].
  destruct (mean (map dividend_value (r0 :: history))) as [avg|] eqn:Eavg;
    [|contradiction].
  destruct (typical_month now set_iter (r0 :: history)) as [m|] eqn:Em;
    [|contradiction].
  destruct (typical_day m (r0 :: history)) as [d|] eqn:Ed; [|contradiction].
  apply in_flat_map in H as (y & Hy & H). unfold quarterly_point in H.
  exists q, (r0 :: history), y.
  destruct (site_override (site_forecasts h !! (y, q))) as [[sd sv]|] eqn:Es.
  - simpl in H. destruct H as [<-|[]]. exists sd, sv.
    split; [exact Hq|]. split; [exact Hy|]. split; [reflexivity | now left].
  - destruct (make_forecast_date y m d) as [dt|] eqn:Edt; [|contradiction].
    simpl in H. destruct H as [<-|[]]. exists dt, (round2 avg).
    split; [exact Hq|]. split; [exact Hy|]. split; [reflexivity|].
    right. exists m, d, avg. auto 10.
Qed.

Lemma in_payment_rows_of set_iter cy years tk r group h x :
  In x (payment_rows set_iter cy years tk (r :: group) h) ->
  exists m d payments y dt avg q,
    In ((m, d), payments) (annual_payment_dates h)
    /\ In y (future_years cy years)
    /\ make_forecast_date y m d = Ret dt
    /\ mean (map dividend_value payments) = Ret avg
    /\ group_quarter set_iter m payments = Ret q
    /\ x = forecast_row tk (name r) dt (round2 avg) (Period_quarter q y) y
             (Some q) Payment_dates.
Proof.
  unfold payment_rows. intros H.
  apply in_flat_map in H as ([[m d] payments] & Hp & H).
  unfold payment_item_rows in H.
  destruct (mean (map dividend_value payments)) as [avg|] eqn:Eavg;
    [|contradiction].
  destruct (group_quarter set_iter m payments) as [q|] eqn:Eq; [|contradiction].
  apply in_flat_map in H as (y & Hy & H). unfold payment_point in H.
  destruct (make_forecast_date y m d) as [dt|] eqn:Edt; [|contradiction].
  simpl in H. destruct H as [<-|[]].
  exists m, d, payments, y, dt, avg, q. auto 10.
Qed.

Lemma site_record_in group y q sf :
  site_record group y q = Some sf -> In sf group /\ site_key sf = Some (y, q).
Proof.
  unfold site_record. intros H. apply find_some in H as [Hin Hk].
  split; [now apply in_rev|].
  unfold key_eqb in Hk. destruct (site_key sf) as [k|]; [|discriminate].
  apply md_eqb_eq in Hk. now subst k.
Qed.

Lemma site_override_in ray group y q dt v :
  site_override (site_forecasts (analyse ray group) !! (y, q)) = Some (dt, v) ->
  exists sf, In sf group /\ record_date sf = Some dt /\ dividend_value sf = v
             /\ site_record group y q = Some sf.
Proof.
  rewrite site_forecasts_analyse. unfold site_override.
  destruct (site_record group y q) as [sf|] eqn:E; [|discriminate].
  destruct (record_date sf) as [d|] eqn:Ed; [|discriminate].
  intros [= <- <-]. exists sf. apply site_record_in in E as H. tauto.
Qed.

Lemma ticker_quarters_entry ray group q history :
  In (q, history) (ticker_quarters (analyse ray group)) ->
  history = quarter_history group q /\ history <> []
  /\ forall p, In p history -> In p group /\ is_actual p = true
                                /\ quarter p = Some q.
Proof.
  rewrite ticker_quarters_analyse. intros H.
  apply (dict_of_entry Z.eqb quarter_key Z.eqb_eq) in H as [-> Hne].
  split; [reflexivity|]. split; [exact Hne|].
  intros p Hp. unfold quarter_history in Hp. apply filter_In in Hp as [Hin Hk].
  apply (key_is_true Z.eqb quarter_key Z.eqb_eq) in Hk.
  unfold quarter_key in Hk. destruct (is_actual p); [auto | discriminate].
Qed.

(** Every row the engine emits for a security, with what is known about its
    date and its amount. *)
Lemma ticker_rows_elim (D : datetime -> Prop) (V : Q -> Prop)
    now set_iter years window tk r group :
  (forall y m d dt, make_forecast_date y m d = Ret dt -> D dt) ->
  (forall p dt, In p (r :: group) -> record_date p = Some dt -> D dt) ->
  (forall p, In p (r :: group) -> V (dividend_value p)) ->
  V 0%Q ->
  (forall l avg,
     (forall p, In p l -> In p (r :: group)) ->
     mean (map dividend_value l) = Ret avg ->
     V (round2 avg) /\ V (round2 (avg / 4))) ->
  forall x, In x (ticker_rows now set_iter years window tk (r :: group)) ->
  exists dt v q y label,
    In y (future_years (dt_year now) years)
    /\ D dt /\ V v
    /\ x = forecast_row tk (name r) dt v (Period_quarter q y) y (Some q) label
    /\ In label [Quarterly_data; Payment_dates; Annual_data; Emergency;
                 Inactive_company].
Proof.
  intros HD Hsite HV H0 Hmean x Hx.
  destruct (ticker_rows_cases now set_iter years window tk (r :: group))
    as [E|[E|[E|[E|E]]]]; rewrite E in Hx; clear E.
  - apply in_grid_rows_of in Hx as (dt & q & y & m & d & Hy & _ & Hdt & ->).
    exists dt, 0%Q, q, y, Inactive_company.
    split; [exact Hy|]. split; [eapply HD; exact Hdt|]. split; [exact H0|].
    split; [reflexivity | simpl; tauto].
  - apply in_quarterly_rows_of in Hx
      as (q & history & y & dt & v & Hq & Hy & -> & Hv).
    exists dt, v, q, y, Quarterly_data.
    split; [exact Hy|].
    destruct Hv as [Hs|(m & d & avg & _ & _ & _ & Hdt & Havg & ->)].
    + apply site_override_in in Hs as (sf & Hin & Hd & <- & _).
      split; [eapply Hsite; eauto|]. split; [now apply HV|].
      split; [reflexivity | simpl; tauto].
    + apply ticker_quarters_entry in Hq as (_ & _ & Hq).
      assert (Hsub : forall p, In p history -> In p (r :: group))
        by (intros p Hp; now apply Hq).
      destruct (Hmean history avg Hsub Havg) as [Hv _].
      split; [eapply HD; exact Hdt|]. split; [exact Hv|].
      split; [reflexivity | simpl; tauto].
  - apply in_payment_rows_of in Hx
      as (m & d & payments & y & dt & avg & q & Hp & Hy & Hdt & Havg & _ & ->).
    apply annual_payment_dates_entry in Hp as (_ & Hp).
    assert (Hsub : forall p, In p payments -> In p (r :: group))
      by (intros p Hin; now apply Hp).
    destruct (Hmean payments avg Hsub Havg) as [Hv _].
    exists dt, (round2 avg), q, y, Payment_dates.
    split; [exact Hy|]. split; [eapply HD; exact Hdt|]. split; [exact Hv|].
    split; [reflexivity | simpl; tauto].
  - unfold annual_rows in Hx.
    destruct (mean (map dividend_value (all_payments _))) as [avg|] eqn:Havg;
      [|contradiction].
    apply in_grid_rows_of in Hx as (dt & q & y & m & d & Hy & _ & Hdt & ->).
    rewrite all_payments_analyse in Havg.
    assert (Hsub : forall p, In p (filter is_payment (r :: group)) ->
                             In p (r :: group))
      by (intros p Hin; now apply filter_In in Hin).
    destruct (Hmean _ avg Hsub Havg) as [_ Hv].
    exists dt, (round2 (avg / 4)), q, y, Annual_data.
    split; [exact Hy|]. split; [eapply HD; exact Hdt|]. split; [exact Hv|].
    split; [reflexivity | simpl; tauto].
  - apply in_grid_rows_of in Hx as (dt & q & y & m & d & Hy & _ & Hdt & ->).
    exists dt, 0%Q, q, y, Emergency.
    split; [exact Hy|]. split; [eapply HD; exact Hdt|]. split; [exact H0|].
    split; [reflexivity | simpl; tauto].
Qed.

(** X.  Every row the engine emits for a security carries the security's
    ticker, the name of the first row of its history, provenance 2, a record
    date, a future year within the horizon, a quarter, and the period label
    "Q{quarter} {year}" of that quarter and year.  No row comes from the
    single-annual fallback of strategy 3.3. *)
Theorem forecast_rows_are_uniform
    (now : datetime) (set_iter : list Z -> list Z) (years window : Z)
    (tk : string) (r : Row) (group : list Row) (x : Row) :
  (forall l z, In z (set_iter l) <-> In z l) ->
  In x (emitted now set_iter years window tk (r :: group)) ->
  ticker x = tk
  /\ name x = name r
  /\ forecast_type x = 2
  /\ record_date x <> None
  /\ forecast_strategy x <> Some Single_annual
  /\ exists q y,
       dt_year now + 1 <= y <= dt_year now + years
       /\ year x = Some y /\ quarter x = Some q
       /\ period x = Period_quarter q y.
Proof.
  intros Hset Hx. rewrite (emitted_rows now set_iter Hset) in Hx.
  apply (ticker_rows_elim (fun _ => True) (fun _ => True)) in Hx
    as (dt & v & q & y & label & Hy & _ & _ & -> & Hl); auto.
  apply in_future_years in Hy. cbn.
  repeat split; try discriminate.
  - simpl in Hl. intros [= ->]. intuition discriminate.
  - exists q, y. auto.
Qed.

Lemma forecast_rows_are_uniform_witness :
  forall x,
    In x (emitted sample_now first_occurrences 2 3 "MIX" mixed_group) ->
    ticker x = "MIX"%string /\ name x = "Sample"%string.
Proof.
  intros x Hx.
  destruct (forecast_rows_are_uniform sample_now first_occurrences 2 3 "MIX"
              (sample_row "MIX" (Some (mk_datetime 2022 3 10)) 5 0 2022 (Some 1))
              [sample_row "MIX" (Some (mk_datetime 2023 3 12)) 7 0 2023 (Some 1);
               lone_quarter_row] x first_occurrences_spec Hx)
    as (Ht & Hn & _).
  split; [exact Ht | exact Hn].
Defined.

(** X.  When every record date of the history is a calendar date, so is the
    record date of every emitted row; when no amount of the history is
    negative, no emitted amount is. *)
Theorem forecast_rows_have_real_dates_and_amounts
    (now : datetime) (set_iter : list Z -> list Z) (years window : Z)
    (tk : string) (r : Row) (group : list Row) (x : Row) :
  (forall l z, In z (set_iter l) <-> In z l) ->
  In x (emitted now set_iter years window tk (r :: group)) ->
  (dates_valid (r :: group) ->
   exists d, record_date x = Some d /\ valid d = true)
  /\ ((forall p, In p (r :: group) -> (0 <= dividend_value p)%Q) ->
      (0 <= dividend_value x)%Q).
Proof.
  intros Hset Hx. rewrite (emitted_rows now set_iter Hset) in Hx. split.
  - intros Hv.
    apply (ticker_rows_elim (fun d => valid d = true) (fun _ => True)) in Hx
      as (dt & v & q & y & label & _ & Hdt & _ & -> & _); auto.
    + exists dt. split; [reflexivity | exact Hdt].
    + intros y m d dt. apply make_forecast_date_ret_valid.
  - intros Hpos.
    apply (ticker_rows_elim (fun _ => True) (fun v => (0 <= v)%Q)) in Hx
      as (dt & v & q & y & label & _ & _ & Hv & -> & _); auto.
    + apply Qle_refl.
    + intros l avg Hsub Havg.
      assert (Ha : (0 <= avg)%Q).
      { apply (mean_nonneg (map dividend_value l)); [|exact Havg].
        intros v0 Hv0. apply in_map_iff in Hv0 as (p & <- & Hp). auto. }
      split; apply round2_nonneg; [exact Ha|].
      apply Qle_shift_div_l; lra.
Qed.

Lemma forecast_rows_have_real_dates_and_amounts_witness :
  forall x,
    In x (emitted sample_now first_occurrences 2 3 "MIX" mixed_group) ->
    (0 <= dividend_value x)%Q.
Proof.
  intros x Hx.
  apply (forecast_rows_have_real_dates_and_amounts sample_now first_occurrences
           2 3 "MIX"
           (sample_row "MIX" (Some (mk_datetime 2022 3 10)) 5 0 2022 (Some 1))
           [sample_row "MIX" (Some (mk_datetime 2023 3 12)) 7 0 2023 (Some 1);
            lone_quarter_row] x first_occurrences_spec Hx).
  intros p [<-|[<-|[<-|[]]]]; vm_compute; discriminate.
Defined.

(** ** Strategy 3.2: the anniversaries of the payments *)

Lemma chain_rows_payment now set_iter cy years tk group h :
  has_quarterly_data h = false ->
  annual_payment_dates h <> [] ->
  payment_rows set_iter cy years tk group h <> [] ->
  chain_rows now set_iter cy years tk group h
  = payment_rows set_iter cy years tk group h.
Proof.
  intros Hq Hapd Hne. unfold chain_rows. rewrite Hq. cbn [is_empty andb].
  remember (payment_rows set_iter cy years tk group h) as pr eqn:Epr.
  destruct (annual_payment_dates h); [congruence|]. cbn [is_empty negb].
  destruct pr; [congruence|]. reflexivity.
Qed.

Lemma dict_of_no_key {K V} (eqb : K -> K -> bool) (key : V -> option K) l :
  (forall v, In v l -> key v = None) -> dict_of eqb key l = [].
Proof.
  unfold dict_of. generalize (@nil (K * list V)) as d.
  induction l as [|v l IH]; intros d Hl; simpl; [reflexivity|].
  unfold dict_step at 2. rewrite (Hl v) by now left.
  apply IH. intros v' Hv'. apply Hl. now right.
Qed.

Lemma in_calendar now years y :
  valid now = true -> dt_year now + years <= MAXYEAR ->
  dt_year now + 1 <= y <= dt_year now + years ->
  MINYEAR <= y <= MAXYEAR.
Proof.
  intros Hnow Hmax Hy. apply valid_date_iff in Hnow. lia.
Qed.

(** X.  Strategy 3.2.  For a security that passes the activity gate and has
    no quarterly history, every emitted row is labelled by strategy 3.2, and
    every (month, day) on which a payment was recorded is forecast once in
    every future year: on that day of that month, or on the last day of the
    month in a year in which the month is shorter, with the mean of the
    payments recorded on that (month, day), rounded to hundredths. *)
Theorem payment_dates_strategy_repeats_anniversaries
    (now : datetime) (set_iter : list Z -> list Z) (years window : Z)
    (tk : string) (r : Row) (group : list Row) (p : Row) (m d y : Z) :
  (forall l z, In z (set_iter l) <-> In z l) ->
  valid now = true ->
  dt_year now + years <= MAXYEAR ->
  dates_valid (r :: group) ->
  passes_gate (dt_year now) window (r :: group) = true ->
  has_quarterly_data (analyse (dt_year now - window) (r :: group)) = false ->
  In p (r :: group) -> date_key p = Some (m, d) ->
  dt_year now + 1 <= y <= dt_year now + years ->
  let out := emitted now set_iter years window tk (r :: group) in
  let payments := anniversary_payments (r :: group) m d in
  (forall x, In x out -> forecast_strategy x = Some Payment_dates)
  /\ exists q avg,
       group_quarter set_iter m payments = Ret q
       /\ mean (map dividend_value payments) = Ret avg
       /\ In (forecast_row tk (name r)
                (mk_datetime y m (Z.min d (days_in_month y m)))
                (round2 avg) (Period_quarter q y) y (Some q) Payment_dates)
            out.
Proof.
  intros Hset Hnow Hmax Hv Hgate Hq Hp Hk Hy out payments.
  set (ray := dt_year now - window) in *.
  set (h := analyse ray (r :: group)) in *.
  assert (Hitem : In ((m, d), payments) (annual_payment_dates h)).
  { subst h. rewrite annual_payment_dates_analyse.
    apply (dict_of_has_entry md_eqb date_key md_eqb_eq _ p); assumption. }
  assert (Hpin : In p payments).
  { subst payments. unfold anniversary_payments. apply filter_In.
    split; [exact Hp|]. now apply (key_is_true md_eqb date_key md_eqb_eq). }
  assert (Hne : payments <> []) by (intros E; rewrite E in Hpin; contradiction).
  destruct (group_quarter_ret set_iter Hset m payments) as (q & Hgq & _).
  pose proof (mean_nonempty (map dividend_value payments)) as Hmean.
  specialize (Hmean ltac:(destruct payments; [congruence | discriminate])).
  set (avg := (qsum (map dividend_value payments)
               / inject_Z (len (map dividend_value payments)))%Q) in *.
  apply date_key_some in Hk as (_ & dt & Hdt & Hm & Hd).
  destruct (valid_month_day dt (Hv _ _ Hp Hdt)) as [Hmr Hdr].
  rewrite Hm in Hmr. rewrite Hd in Hdr.
  pose proof (in_calendar now years y Hnow Hmax Hy) as Hcal.
  pose proof (make_forecast_date_clamps y m d Hcal Hmr Hdr) as Hfd.
  set (rec := forecast_row tk (name r)
                (mk_datetime y m (Z.min d (days_in_month y m)))
                (round2 avg) (Period_quarter q y) y (Some q) Payment_dates).
  assert (Hrec : In rec (payment_rows set_iter (dt_year now) years tk
                           (r :: group) h)).
  { unfold payment_rows. apply in_flat_map. exists ((m, d), payments).
    split; [exact Hitem|]. unfold payment_item_rows.
    rewrite Hmean, Hgq. apply in_flat_map. exists y.
    split; [now apply in_future_years|].
    unfold payment_point. rewrite Hfd. now left. }
  assert (Hout : out = payment_rows set_iter (dt_year now) years tk
                         (r :: group) h).
  { subst out. rewrite (emitted_rows now set_iter Hset).
    rewrite ticker_rows_gate_open by exact Hgate.
    apply chain_rows_payment.
    - exact Hq.
    - intros E. fold ray in E. fold h in E. rewrite E in Hitem. contradiction.
    - intros E. fold ray in E. fold h in E. rewrite E in Hrec. contradiction. }
  split.
  - intros x Hx. rewrite Hout in Hx.
    apply in_payment_rows in Hx as (nm & dt' & v & q' & y' & _ & ->).
    reflexivity.
  - exists q, avg. split; [exact Hgq|]. split; [exact Hmean|].
    rewrite Hout. exact Hrec.
Qed.

Lemma payment_dates_strategy_repeats_anniversaries_witness :
  exists q avg,
    In (forecast_row "LEAP" "Sample" (mk_datetime 2025 2 28) (round2 avg)
          (Period_quarter q 2025) 2025 (Some q) Payment_dates)
      (emitted sample_now first_occurrences 2 3 "LEAP" leap_day_group).
Proof.
  destruct (payment_dates_strategy_repeats_anniversaries sample_now
              first_occurrences 2 3 "LEAP" leap_day_row [] leap_day_row
              2 29 2025 first_occurrences_spec)
    as (_ & q & avg & _ & _ & Hin).
  - reflexivity.
  - vm_compute. discriminate.
  - intros x dt [<-|[]] [= <-]. reflexivity.
  - reflexivity.
  - reflexivity.
  - now left.
  - reflexivity.
  - vm_compute. split; discriminate.
  - exists q, avg. exact Hin.
Defined.

(** ** Strategy 3.3: the annual mean in four instalments *)

Lemma fixed_grid_nil tk nm cy years v label v' label' :
  fixed_grid tk nm cy years v label = [] ->
  fixed_grid tk nm cy years v' label' = [].
Proof.
  unfold fixed_grid. destruct (future_years cy years); simpl;
    [reflexivity | discriminate].
Qed.

Lemma gate_open_has_payment cy window group :
  passes_gate cy window group = true -> filter is_payment group <> [].
Proof.
  intros H. apply passes_gate_iff in H as (p & Hin & Hp).
  unfold counts_recent in Hp. apply andb_true_iff in Hp as [Hp _].
  intros E.
  assert (Hf : In p (filter is_payment group)) by (apply filter_In; auto).
  rewrite E in Hf. contradiction.
Qed.

(** X.  Strategy 3.3.  For a security that passes the activity gate, has no
    quarterly history and no payment with a record date, the engine emits the
    fixed grid (15 March, June, September and December of every future year)
    with a quarter of the mean payment, rounded to hundredths, in every cell;
    the four instalments of a year differ from the mean payment by at most
    0.02 in total. *)
Theorem annual_strategy_spreads_the_mean
    (now : datetime) (set_iter : list Z -> list Z) (years window : Z)
    (tk : string) (r : Row) (group : list Row) :
  (forall l z, In z (set_iter l) <-> In z l) ->
  valid now = true ->
  dt_year now + years <= MAXYEAR ->
  passes_gate (dt_year now) window (r :: group) = true ->
  has_quarterly_data (analyse (dt_year now - window) (r :: group)) = false ->
  (forall p, In p (r :: group) -> is_payment p = true -> record_date p = None) ->
  exists avg,
    mean (map dividend_value (filter is_payment (r :: group))) = Ret avg
    /\ emitted now set_iter years window tk (r :: group)
       = fixed_grid tk (name r) (dt_year now) years (round2 (avg / 4))
           Annual_data
    /\ (avg - (2 # 100) <= 4 * round2 (avg / 4))%Q
    /\ (4 * round2 (avg / 4) <= avg + (2 # 100))%Q.
Proof.
  intros Hset Hnow Hmax Hgate Hq Hund.
  set (ray := dt_year now - window) in *.
  set (h := analyse ray (r :: group)) in *.
  pose proof (gate_open_has_payment _ _ _ Hgate) as Hpay.
  pose proof (mean_nonempty (map dividend_value (filter is_payment (r :: group))))
    as Hmean.
  specialize (Hmean ltac:(destruct (filter is_payment (r :: group));
                          [congruence | discriminate])).
  set (avg := (qsum (map dividend_value (filter is_payment (r :: group)))
               / inject_Z (len (map dividend_value
                                  (filter is_payment (r :: group)))))%Q) in *.
  exists avg. split; [exact Hmean|]. split.
  - rewrite (emitted_rows now set_iter Hset).
    rewrite ticker_rows_gate_open by exact Hgate. fold ray. fold h.
    assert (Hapd : annual_payment_dates h = []).
    { subst h. rewrite annual_payment_dates_analyse. apply dict_of_no_key.
      intros v Hin. unfold date_key. destruct (is_payment v) eqn:E; [|reflexivity].
      now rewrite (Hund v Hin E). }
    assert (Hall : all_payments h = filter is_payment (r :: group)).
    { subst h. apply all_payments_analyse. }
    assert (Hcal : forall y, In y (future_years (dt_year now) years) ->
                             MINYEAR < y <= MAXYEAR).
    { intros y. now apply future_years_in_calendar. }
    unfold chain_rows. rewrite Hq, Hapd. cbn [is_empty andb negb].
    assert (Hlen : (len (all_payments h) >? 0) = true).
    { rewrite Hall. unfold len.
      destruct (filter is_payment (r :: group)); [congruence|].
      cbn [length]. apply Z.gtb_lt. lia. }
    rewrite Hlen. unfold annual_rows. rewrite Hall, Hmean.
    rewrite !grid_rows_fixed by exact Hcal.
    destruct (fixed_grid tk (name r) (dt_year now) years (round2 (avg / 4))
                Annual_data) eqn:E; cbn [is_empty]; [|reflexivity].
    eapply fixed_grid_nil. exact E.
  - clearbody avg.
    destruct (round2_bounds (avg / 4)) as [Hlo Hhi].
    assert (H4 : (avg / 4 * 4 == avg)%Q) by (field).
    revert Hlo Hhi H4. generalize (round2 (avg / 4)), (avg / 4)%Q.
    intros R A Hlo Hhi H4. split; lra.
Qed.

Lemma annual_strategy_spreads_the_mean_witness :
  exists avg,
    emitted sample_now first_occurrences 2 3 "YRS" yearly_group
    = fixed_grid "YRS" "Sample" 2024 2 (round2 (avg / 4)) Annual_data.
Proof.
  destruct (annual_strategy_spreads_the_mean sample_now first_occurrences 2 3
              "YRS" (sample_row "YRS" None 8 0 2023 None)
              [sample_row "YRS" None 12 0 2024 None] first_occurrences_spec)
    as (avg & _ & Hout & _).
  - reflexivity.
  - vm_compute. discriminate.
  - reflexivity.
  - reflexivity.
  - intros p [<-|[<-|[]]] _; reflexivity.
  - exists avg. exact Hout.
Defined.

(** ** Strategy 3.1: the typical date of a quarter *)

Lemma most_common_constant set_iter (l : list Z) m :
  (forall l x, In x (set_iter l) <-> In x l) ->
  l <> [] -> (forall x, In x l -> x = m) -> most_common set_iter l = Ret m.
Proof.
  intros Hset Hne Hall.
  destruct (most_common_ret set_iter Hset l Hne) as (x & Hx & Hin).
  now rewrite Hx, (Hall x Hin).
Qed.

Lemma typical_month_constant now set_iter history m :
  (forall l x, In x (set_iter l) <-> In x l) ->
  omap month history <> [] ->
  (forall p dt, In p history -> record_date p = Some dt -> dt_month dt = m) ->
  typical_month now set_iter history = Ret m.
Proof.
  intros Hset Hne Hall. unfold typical_month.
  destruct (omap month history) as [|x l] eqn:E; [congruence|].
  apply most_common_constant; [exact Hset | discriminate|].
  intros z Hz. rewrite <- E in Hz.
  apply in_omap_list in Hz as (p & Hp & Hm). unfold month in Hm.
  destruct (record_date p) as [dt|] eqn:Ed; [|discriminate].
  simpl in Hm. injection Hm as <-. eapply Hall; eauto.
Qed.

Lemma typical_month_undated now set_iter history :
  (forall p, In p history -> record_date p = None) ->
  typical_month now set_iter history = Ret (dt_month now).
Proof.
  intros Hall. unfold typical_month.
  destruct (omap month history) as [|x l] eqn:E; [reflexivity|].
  assert (Hx : In x (omap month history)) by (rewrite E; now left).
  apply in_omap_list in Hx as (p & Hp & Hm). unfold month in Hm.
  rewrite (Hall p Hp) in Hm. discriminate.
Qed.

Lemma typical_day_undated m history :
  (forall p, In p history -> record_date p = None) ->
  typical_day m history = Ret 15.
Proof.
  intros Hall. unfold typical_day.
  match goal with |- match ?l with _ => _ end = _ =>
    destruct l as [|x l'] eqn:E end; [reflexivity|].
  match type of E with ?l = _ =>
    assert (Hx : In x l) by (rewrite E; now left) end.
  apply in_omap_list in Hx as (p & Hp & Hm).
  rewrite (Hall p Hp) in Hm. discriminate.
Qed.

Lemma typical_day_constant m d history p dp :
  In p history -> record_date p = Some dp -> dt_month dp = m ->
  (forall p dt, In p history -> record_date p = Some dt ->
                dt_month dt = m -> dt_day dt = d) ->
  typical_day m history = Ret d.
Proof.
  intros Hp Hdp Hm Hall. unfold typical_day.
  match goal with |- match ?l with _ => _ end = _ =>
    set (days := l) end.
  assert (Hin : In (dt_day dp) days).
  { subst days. apply in_omap_list. exists p. split; [exact Hp|].
    rewrite Hdp. rewrite <- Hm. now rewrite Z.eqb_refl. }
  assert (Hd : forall z, In z days -> d <= z <= d).
  { intros z Hz. subst days. apply in_omap_list in Hz as (p' & Hp' & Hz).
    destruct (record_date p') as [dt|] eqn:Edt; [|discriminate].
    destruct (dt_month dt =? m) eqn:Em; [|discriminate].
    injection Hz as <-. rewrite (Hall p' dt Hp' Edt) by lia. lia. }
  assert (Hne : days <> []) by (intros E; rewrite E in Hin; contradiction).
  destruct (int_mean_bounds d d days Hne Hd) as (z & Hz & Hzd).
  clearbody days. destruct days; [congruence|].
  rewrite Hz. f_equal. lia.
Qed.

Lemma quarterly_record_at now set_iter years window tk r group x q y m d dt :
  (forall l z, In z (set_iter l) <-> In z l) ->
  passes_gate (dt_year now) window (r :: group) = true ->
  has_quarterly_data (analyse (dt_year now - window) (r :: group)) = true ->
  In x (r :: group) -> is_actual x = true -> quarter x = Some q ->
  dt_year now + 1 <= y <= dt_year now + years ->
  site_override (site_record (r :: group) y q) = None ->
  typical_month now set_iter (quarter_history (r :: group) q) = Ret m ->
  typical_day m (quarter_history (r :: group) q) = Ret d ->
  make_forecast_date y m d = Ret dt ->
  records_for (Some q) y (emitted now set_iter years window tk (r :: group))
  = [forecast_row tk (name r) dt
       (round2 (quarter_average (quarter_history (r :: group) q)))
       (Period_quarter q y) y (Some q) Quarterly_data].
Proof.
  intros Hset Hgate Hq Hx Hact Hqx Hy Hsite Hm Hd Hdt.
  set (ray := dt_year now - window) in *.
  pose proof (in_ticker_quarters ray _ _ _ Hx Hact Hqx) as Hin.
  assert (Hyf : In y (future_years (dt_year now) years))
    by now apply in_future_years.
  pose proof (records_for_quarterly now set_iter Hset ray (dt_year now) years
                tk (r :: group) q _ y Hin Hyf) as Hrf.
  assert (Hpt : quarterly_point_of now set_iter tk (r :: group)
                  (analyse ray (r :: group))
                  (q, quarter_history (r :: group) q) y
                = [forecast_row tk (name r) dt
                     (round2 (quarter_average (quarter_history (r :: group) q)))
                     (Period_quarter q y) y (Some q) Quarterly_data]).
  { unfold quarterly_point_of. cbn [fst snd].
    unfold quarter_day, quarter_month. rewrite Hm. cbn [value_or].
    rewrite Hd. cbn [value_or].
    apply quarterly_point_computed; [|exact Hdt].
    now rewrite site_forecasts_analyse. }
  rewrite Hpt in Hrf.
  rewrite emitted_quarterly; try assumption.
  apply (records_for_nonempty (Some q) y). fold ray. rewrite Hrf. discriminate.
Qed.

(** X.  Strategy 3.1.  When every dated observation of a quarter fell on
    the same day of the same month, the engine forecasts that quarter, in
    every future year for which the site has no dated forecast, on that day
    of that month (the last day of the month in a year in which the month is
    shorter), with the mean of the quarter's observations. *)
Theorem quarterly_strategy_keeps_the_anniversary
    (now : datetime) (set_iter : list Z -> list Z) (years window : Z)
    (tk : string) (r : Row) (group : list Row) (x : Row) (dx : datetime)
    (q y : Z) :
  (forall l z, In z (set_iter l) <-> In z l) ->
  valid now = true ->
  dt_year now + years <= MAXYEAR ->
  dates_valid (r :: group) ->
  passes_gate (dt_year now) window (r :: group) = true ->
  has_quarterly_data (analyse (dt_year now - window) (r :: group)) = true ->
  In x (r :: group) -> is_actual x = true -> quarter x = Some q ->
  record_date x = Some dx ->
  (forall p dt, In p (quarter_history (r :: group) q) ->
                record_date p = Some dt ->
                dt_month dt = dt_month dx /\ dt_day dt = dt_day dx) ->
  dt_year now + 1 <= y <= dt_year now + years ->
  site_override (site_record (r :: group) y q) = None ->
  records_for (Some q) y (emitted now set_iter years window tk (r :: group))
  = [forecast_row tk (name r)
       (mk_datetime y (dt_month dx)
          (Z.min (dt_day dx) (days_in_month y (dt_month dx))))
       (round2 (quarter_average (quarter_history (r :: group) q)))
       (Period_quarter q y) y (Some q) Quarterly_data].
Proof.
  intros Hset Hnow Hmax Hv Hgate Hq Hx Hact Hqx Hdx Hsame Hy Hsite.
  assert (Hxh : In x (quarter_history (r :: group) q)).
  { unfold quarter_history. apply filter_In. split; [exact Hx|].
    apply (key_is_true Z.eqb quarter_key Z.eqb_eq).
    unfold quarter_key. now rewrite Hact. }
  destruct (valid_month_day dx (Hv _ _ Hx Hdx)) as [Hmr Hdr].
  apply (quarterly_record_at now set_iter years window tk r group x q y
           (dt_month dx) (dt_day dx)); try assumption.
  - apply typical_month_constant; [exact Hset| |].
    + intros E.
      assert (Hin : In (dt_month dx) (omap month (quarter_history (r :: group) q))).
      { apply in_omap_list. exists x. split; [exact Hxh|].
        unfold month. now rewrite Hdx. }
      rewrite E in Hin. contradiction.
    + intros p dt Hp Hdt. now apply (Hsame p dt).
  - apply (typical_day_constant _ _ _ x dx); auto.
    intros p dt Hp Hdt _. now apply (Hsame p dt).
  - apply make_forecast_date_clamps; try assumption.
    eapply in_calendar; eauto.
Qed.

(** X.  Strategy 3.1.  When no observation of a quarter has a record date,
    the engine forecasts that quarter on the 15th of the month in which the
    forecast is run, whatever the quarter is. *)
Theorem undated_quarter_is_forecast_in_the_month_of_the_run
    (now : datetime) (set_iter : list Z -> list Z) (years window : Z)
    (tk : string) (r : Row) (group : list Row) (x : Row) (q y : Z) :
  (forall l z, In z (set_iter l) <-> In z l) ->
  valid now = true ->
  dt_year now + years <= MAXYEAR ->
  passes_gate (dt_year now) window (r :: group) = true ->
  has_quarterly_data (analyse (dt_year now - window) (r :: group)) = true ->
  In x (r :: group) -> is_actual x = true -> quarter x = Some q ->
  (forall p, In p (quarter_history (r :: group) q) -> record_date p = None) ->
  dt_year now + 1 <= y <= dt_year now + years ->
  site_override (site_record (r :: group) y q) = None ->
  records_for (Some q) y (emitted now set_iter years window tk (r :: group))
  = [forecast_row tk (name r) (mk_datetime y (dt_month now) 15)
       (round2 (quarter_average (quarter_history (r :: group) q)))
       (Period_quarter q y) y (Some q) Quarterly_data].
Proof.
  intros Hset Hnow Hmax Hgate Hq Hx Hact Hqx Hund Hy Hsite.
  apply (quarterly_record_at now set_iter years window tk r group x q y
           (dt_month now) 15); try assumption.
  - now apply typical_month_undated.
  - now apply typical_day_undated.
  - apply make_forecast_date_valid. apply valid_date_iff.
    pose proof (in_calendar now years y Hnow Hmax Hy).
    apply valid_date_iff in Hnow.
    pose proof (days_in_month_bounds y (dt_month now)). lia.
Qed.

Lemma quarterly_strategy_keeps_the_anniversary_witness :
  exists v,
    records_for (Some 1) 2025
      (emitted sample_now first_occurrences 2 3 "FEB" leap_quarter_group)
    = [forecast_row "FEB" "Sample" (mk_datetime 2025 2 28) v
         (Period_quarter 1 2025) 2025 (Some 1) Quarterly_data].
Proof.
  eexists.
  apply (quarterly_strategy_keeps_the_anniversary sample_now first_occurrences
           2 3 "FEB" leap_quarter_row [sample_row "FEB" None 6 0 2023 (Some 1)]
           leap_quarter_row (mk_datetime 2024 2 29) 1 2025
           first_occurrences_spec).
  - reflexivity.
  - vm_compute. discriminate.
  - intros x dt [<-|[<-|[]]] [= <-]. reflexivity.
  - reflexivity.
  - reflexivity.
  - now left.
  - reflexivity.
  - reflexivity.
  - reflexivity.
  - intros p dt Hp Hd. vm_compute in Hp.
    destruct Hp as [<-|[<-|[]]]; [|discriminate].
    injection Hd as <-. split; reflexivity.
  - vm_compute. split; discriminate.
  - reflexivity.
Defined.

Lemma undated_quarter_is_forecast_in_the_month_of_the_run_witness :
  exists v,
    records_for (Some 1) 2025
      (emitted sample_now first_occurrences 2 3 "UND" undated_quarter_group)
    = [forecast_row "UND" "Sample" (mk_datetime 2025 11 15) v
         (Period_quarter 1 2025) 2025 (Some 1) Quarterly_data].
Proof.
  eexists.
  apply (undated_quarter_is_forecast_in_the_month_of_the_run sample_now
           first_occurrences 2 3 "UND"
           (sample_row "UND" None 4 0 2024 (Some 1))
           [sample_row "UND" None 6 0 2023 (Some 1)]
           (sample_row "UND" None 4 0 2024 (Some 1)) 1 2025
           first_occurrences_spec).
  - reflexivity.
  - vm_compute. discriminate.
  - reflexivity.
  - reflexivity.
  - now left.
  - reflexivity.
  - reflexivity.
  - intros p Hp. vm_compute in Hp.
    destruct Hp as [<-|[<-|[]]]; reflexivity.
  - vm_compute. split; discriminate.
  - reflexivity.
Defined.

(** ** The groups of one frame *)

Lemma insert_key_sorted k keys :
  StronglySorted key_lt keys -> StronglySorted key_lt (insert_key k keys).
Proof.
  induction keys as [|k' keys IH]; intros Hs; simpl.
  - constructor; constructor.
  - apply StronglySorted_inv in Hs as [Hs Hall].
    destruct (String.compare k k') eqn:E.
    + constructor; assumption.
    + constructor; [constructor; assumption|].
      constructor; [exact E|].
      rewrite Forall_forall in *. intros z Hz.
      eapply string_compare_lt_trans; [exact E | now apply Hall].
    + constructor; [now apply IH|].
      rewrite Forall_forall in *. intros z Hz.
      apply insert_key_in in Hz as [->|Hz]; [|now apply Hall].
      now apply string_compare_gt_lt.
Qed.

Lemma group_keys_sorted df : StronglySorted key_lt (group_keys df).
Proof.
  unfold group_keys. induction df as [|r df IH]; simpl.
  - constructor.
  - now apply insert_key_sorted.
Qed.

Lemma group_keys_NoDup df : NoDup (group_keys df).
Proof.
  pose proof (group_keys_sorted df) as Hs.
  induction Hs as [|k keys Hs IH Hall]; constructor; [|exact IH].
  intros Hin. rewrite Forall_forall in Hall. specialize (Hall k Hin).
  unfold key_lt in Hall. rewrite string_compare_refl in Hall. discriminate.
Qed.

Lemma flat_map_at {B} (f : string -> list B) k keys :
  NoDup keys ->
  flat_map (fun k' => if String.eqb k' k then f k' else []) keys
  = if existsb (fun k' => String.eqb k' k) keys then f k else [].
Proof.
  induction keys as [|k0 keys IH]; intros Hnd; simpl; [reflexivity|].
  apply NoDup_cons_iff in Hnd as [Hnin Hnd]. rewrite (IH Hnd).
  destruct (String.eqb k0 k) eqn:E; simpl.
  - apply String.eqb_eq in E. subst k0.
    destruct (existsb (fun k' => String.eqb k' k) keys) eqn:Ex.
    + apply existsb_exists in Ex as (z & Hz & Ez).
      apply String.eqb_eq in Ez. subst z. contradiction.
    + apply app_nil_r.
  - reflexivity.
Qed.

Lemma ticker_rows_no_group now set_iter years window tk :
  ticker_rows now set_iter years window tk [] = [].
Proof.
  destruct (ticker_rows now set_iter years window tk []) as [|x l] eqn:E;
    [reflexivity|].
  assert (Hx : In x (ticker_rows now set_iter years window tk []))
    by (rewrite E; now left).
  destruct (ticker_rows_cases now set_iter years window tk [])
    as [H|[H|[H|[H|H]]]]; rewrite H in Hx; exfalso.
  - unfold grid_rows in Hx. apply in_flat_map in Hx as ([q [m d]] & _ & Hx).
    apply in_flat_map in Hx as (y & _ & Hx). unfold grid_point in Hx.
    now destruct (make_forecast_date y m d).
  - now cbn in Hx.
  - now cbn in Hx.
  - now cbn in Hx.
  - unfold grid_rows in Hx. apply in_flat_map in Hx as ([q [m d]] & _ & Hx).
    apply in_flat_map in Hx as (y & _ & Hx). unfold grid_point in Hx.
    now destruct (make_forecast_date y m d).
Qed.

(** X.  Securities are forecast independently.  The rows the engine emits
    for a whole frame that carry the ticker [tk] are, in the same order, the
    rows it emits for the rows of [tk] alone: the other securities of the
    frame have no influence on them. *)
Theorem securities_are_forecast_independently
    (now : datetime) (set_iter : list Z -> list Z) (years window : Z)
    (df : list Row) (tk : string) :
  (forall l z, In z (set_iter l) <-> In z l) ->
  filter (fun x => String.eqb (ticker x) tk)
    (emitted_all now set_iter years window df)
  = emitted now set_iter years window tk
      (filter (fun r => String.eqb (ticker r) tk) df).
Proof.
  intros Hset.
  rewrite (emitted_all_rows now set_iter Hset), (emitted_rows now set_iter Hset).
  unfold groupby_ticker. rewrite flat_map_concat_map, map_map.
  rewrite <- flat_map_concat_map. cbn beta.
  rewrite filter_flat_map.
  set (rows := fun k => ticker_rows now set_iter years window k
                          (filter (fun r => String.eqb (ticker r) k) df)).
  rewrite (flat_map_ext_in _
             (fun k' => if String.eqb k' tk then rows k' else [])).
  - rewrite flat_map_at by apply group_keys_NoDup.
    destruct (existsb (fun k' => String.eqb k' tk) (group_keys df)) eqn:Ex;
      [reflexivity|].
    assert (Hnone : filter (fun r => String.eqb (ticker r) tk) df = []).
    { apply filter_none. intros r Hr.
      destruct (String.eqb (ticker r) tk) eqn:E; [|reflexivity].
      apply String.eqb_eq in E.
      assert (Hk : In tk (group_keys df)) by (apply group_keys_in; eauto).
      assert (existsb (fun k' => String.eqb k' tk) (group_keys df) = true).
      { apply existsb_exists. exists tk. split; [exact Hk|].
        apply String.eqb_refl. }
      congruence. }
    rewrite Hnone. symmetry. apply ticker_rows_no_group.
  - intros k _. destruct (String.eqb k tk) eqn:E.
    + apply filter_all. intros x Hx.
      apply in_ticker_rows in Hx as (nm & dt & v & q & y & label & _ & -> & _).
      exact E.
    + apply filter_none. intros x Hx.
      apply in_ticker_rows in Hx as (nm & dt & v & q & y & label & _ & -> & _).
      exact E.
Qed.

Lemma securities_are_forecast_independently_witness :
  filter (fun x => String.eqb (ticker x) "OLD")
    (emitted_all sample_now first_occurrences 2 3 (mixed_group ++ dormant_group))
  = emitted sample_now first_occurrences 2 3 "OLD" dormant_group.
Proof.
  apply (securities_are_forecast_independently sample_now first_occurrences
           2 3 (mixed_group ++ dormant_group) "OLD" first_occurrences_spec).
Defined.

(** ** The date block, on the inputs the strategies give it *)

(** X.  For a year inside the calendar, a month 1..12 and a day 1..31 -
    all the strategies ever ask for - the date block returns a date of the
    requested year and month: the requested day if the month has it, the last
    day of the month otherwise.  It never moves to another month and never
    fails. *)
Theorem forecast_date_stays_in_its_month (y m d : Z) :
  MINYEAR <= y <= MAXYEAR -> 1 <= m <= 12 -> 1 <= d <= 31 ->
  make_forecast_date y m d
  = Ret (mk_datetime y m (Z.min d (days_in_month y m)))
  /\ valid (mk_datetime y m (Z.min d (days_in_month y m))) = true
  /\ (d <= days_in_month y m ->
      make_forecast_date y m d = Ret (mk_datetime y m d)).
Proof.
  intros Hy Hm Hd.
  pose proof (make_forecast_date_clamps y m d Hy Hm Hd) as H.
  split; [exact H|]. split.
  - eapply make_forecast_date_ret_valid. exact H.
  - intros Hle. rewrite H. now rewrite Z.min_l.
Qed.

Lemma forecast_date_stays_in_its_month_witness :
  make_forecast_date 2025 2 31 = Ret (mk_datetime 2025 2 28)
  /\ make_forecast_date 2028 2 31 = Ret (mk_datetime 2028 2 29)
  /\ make_forecast_date 2025 6 31 = Ret (mk_datetime 2025 6 30).
Proof.
  split; [|split].
  - apply (forecast_date_stays_in_its_month 2025 2 31); unfold MINYEAR, MAXYEAR; lia.
  - apply (forecast_date_stays_in_its_month 2028 2 31); unfold MINYEAR, MAXYEAR; lia.
  - apply (forecast_date_stays_in_its_month 2025 6 31); unfold MINYEAR, MAXYEAR; lia.
Defined.

(** X.  Whatever year, month and day it is given, the date block never
    returns anything but a calendar date, and it returns the requested date
    itself whenever that is a calendar date. *)
Theorem forecast_date_is_a_calendar_date (y m d : Z) (dt : datetime) :
  make_forecast_date y m d = Ret dt ->
  valid dt = true
  /\ (valid_date y m d = true -> dt = mk_datetime y m d).
Proof.
  intros H. split; [eapply make_forecast_date_ret_valid; exact H|].
  intros Hv. rewrite (make_forecast_date_valid _ _ _ Hv) in H. congruence.
Qed.

Lemma forecast_date_is_a_calendar_date_witness :
  valid (mk_datetime 2024 12 31) = true.
Proof.
  apply (forecast_date_is_a_calendar_date 2025 1 0 (mk_datetime 2024 12 31)).
  reflexivity.
Defined.
